(** * Bjorn-Manager: discovery registry and SSH worker, verified against the code

    Shallow embedding of
      - [bjorn_manager/discovery/device.py]   (DeviceAliasManager),
      - [bjorn_manager/discovery/manager.py]  (Discovery),
      - [bjorn_manager/ssh/worker.py]         (SSHWorker: connect, run_install,
        the commands, the SFTP transfers and the service control).

    Modelling conventions.
      - Python [bytes] values are Rocq strings of 8-bit characters, and a
        Python [str] is represented by its UTF-8 encoding.  Blanks
        ([str.strip], [str.split], [\s]) and line boundaries
        ([str.splitlines]) are those of [str], the ones outside the ASCII
        range included.  Letters and digits are those of the ASCII range:
        [str.lower] is followed on "A" to "Z", and [\d] and [int] on "0" to
        "9"; the bytes of any other letter or digit are inert.
      - Python [dict] and [set] are stdpp's [gmap] and [gset].  Where the code
        iterates over one, the model follows the order of the finite map or
        set, not Python's insertion or hash order; no statement below depends
        on that order.
      - Wall-clock time stamps ([time.time()], a float) are integers.
      - Threads are not modelled: every method is one atomic transition, and
        everything a method reads from the outside world (reverse DNS, TCP
        probes, the SSH channel, the file system) is an explicit input.
      - An exception that the code catches shows as [None] or as a [Raise]
        result; a function of the model that returns a plain value stands for
        code that cannot raise. *)

From Stdlib Require Import ZArith NArith Ascii String List Lia.
From stdpp Require Import base decidable option list gmap strings pretty sorting.

Set Warnings "-clear-no-such-hyp".

(** ** Python string primitives *)

Module PyStr.

(** [c.isspace()] for a character of the ASCII range. *)
Definition is_space (c : ascii) : bool :=
  match c with
  | "009" | "010" | "011" | "012" | "013"
  | "028" | "029" | "030" | "031" | " " => true
  | _ => false
  end%char.

(** Decimal value of a digit character ([\d], [int]): the characters
    [0]..[9] have the codes 48..57. *)
Definition digit_val (c : ascii) : option N :=
  let n := N_of_ascii c in
  if ((48 <=? n) && (n <=? 57))%N then Some (n - 48)%N else None.

Definition is_digit (c : ascii) : bool :=
  match digit_val c with Some _ => true | None => false end.

(** [c.lower()] for a character of the ASCII range: only [A]..[Z] move. *)
Definition lower_char (c : ascii) : ascii :=
  let n := N_of_ascii c in
  if ((65 <=? n) && (n <=? 90))%N then ascii_of_N (n + 32) else c.

(** [s.lower()] on the letters of the ASCII range.  A letter outside it
    stays as it is: [str.lower] changes some of them, but to characters that
    are outside the ASCII range again (U+0130 and U+212A apart, which bring
    an "i" and a "k"), so that the comparisons of the code, all with texts of
    other ASCII characters, come out the same.  On [bytes] this is
    [bytes.lower] as it is. *)
Fixpoint lower (s : string) : string :=
  match s with
  | "" => ""
  | String c r => String (lower_char c) (lower r)
  end.

(** [s.startswith(p)]. *)
Fixpoint startswith (s p : string) {struct p} : bool :=
  match p, s with
  | "", _ => true
  | String a p', String b s' => if Ascii.eqb a b then startswith s' p' else false
  | String _ _, "" => false
  end.

(** [s.endswith(p)]. *)
Definition endswith (s p : string) : bool :=
  startswith (String.rev s) (String.rev p).

(** [needle in hay]. *)
Fixpoint contains (hay needle : string) : bool :=
  startswith hay needle ||
  match hay with
  | "" => false
  | String _ r => contains r needle
  end.

(** The blank characters of [str] outside the ASCII range ([str.isspace],
    [str.strip], [str.split]), each by the bytes of its encoding: U+0085,
    U+00A0, U+1680, U+2000 to U+200A, U+2028, U+2029, U+202F, U+205F and
    U+3000. *)
Definition wide_blanks : list string :=
  [String "194" (String "133" ""); String "194" (String "160" "");
   String "225" (String "154" (String "128" ""))]
  ++ ((fun n => String "226" (String "128" (String (ascii_of_N n) "")))
        <$> [128; 129; 130; 131; 132; 133; 134; 135; 136; 137; 138; 168; 169; 175]%N)
  ++ [String "226" (String "129" (String "159" ""));
      String "227" (String "128" (String "128" ""))].

(** The number of bytes of the blank character [s] starts with; 0 when [s]
    does not start with a blank. *)
Definition blank_width (s : string) : nat :=
  match s with
  | "" => 0
  | String c _ =>
      if is_space c then 1
      else default 0 (String.length <$> List.find (startswith s) wide_blanks)
  end.

(** [s.lstrip()]; [skip] counts the bytes still to pass of a blank that has
    been recognised. *)
Fixpoint lstrip_go (skip : nat) (s : string) : string :=
  match s with
  | "" => ""
  | String _ r =>
      match skip with
      | S k => lstrip_go k r
      | O =>
          match blank_width s with
          | S k => lstrip_go k r
          | O => s
          end
      end
  end.

Definition lstrip (s : string) : string := lstrip_go 0 s.

(** [s] is made of blanks only. *)
Fixpoint blank_only_go (skip : nat) (s : string) : bool :=
  match s with
  | "" => true
  | String _ r =>
      match skip with
      | S k => blank_only_go k r
      | O =>
          match blank_width s with
          | S k => blank_only_go k r
          | O => false
          end
      end
  end.

Definition blank_only (s : string) : bool := blank_only_go 0 s.

(** [s.rstrip()]: what is left of [s] is cut where only blanks follow. *)
Fixpoint rstrip (s : string) : string :=
  match s with
  | "" => ""
  | String c r => if blank_only s then "" else String c (rstrip r)
  end.

(** [s.strip()]. *)
Definition strip (s : string) : string := rstrip (lstrip s).

(** [s.rstrip(".")]. *)
Fixpoint rstrip_dot (s : string) : string :=
  match s with
  | "" => ""
  | String c r =>
      match rstrip_dot r with
      | "" => if Ascii.eqb c "." then "" else String c ""
      | r' => String c r'
      end
  end.

(** [s[:-n]] for [n > 0]. *)
Definition drop_end (n : nat) (s : string) : string :=
  substring 0 (String.length s - n) s.

(** [s[n:]]. *)
Definition drop_start (n : nat) (s : string) : string :=
  substring n (String.length s - n) s.

(** [s.split()]: the maximal runs of non-blank characters; [skip] as in
    [lstrip_go]. *)
Fixpoint split_go (skip : nat) (cur : option string) (s : string) : list string :=
  match s with
  | "" => option_list (String.rev <$> cur)
  | String c r =>
      match skip with
      | S k => split_go k cur r
      | O =>
          match blank_width s with
          | S k => option_list (String.rev <$> cur) ++ split_go k None r
          | O => split_go 0 (Some (String c (default "" cur))) r
          end
      end
  end.

Definition split (s : string) : list string := split_go 0 None s.

(** [s.split()[-1]]; [None] stands for the [IndexError] on an empty list. *)
Definition last_token (s : string) : option string := last (split s).

(** Line boundaries of [str.splitlines] that take one byte, [\r] apart. *)
Definition is_linebreak (c : ascii) : bool :=
  match c with
  | "010" | "011" | "012" | "028" | "029" | "030" => true
  | _ => false
  end%char.

(** The number of bytes of the line boundary [s] starts with, 0 when it
    starts with none: [\r\n] is one boundary, and beyond the ASCII range the
    boundaries are U+0085, U+2028 and U+2029. *)
Definition linebreak_width (s : string) : nat :=
  match s with
  | "" => 0
  | String c r =>
      if Ascii.eqb c "013" then (if startswith r (String "010" "") then 2 else 1)
      else if is_linebreak c then 1
      else if startswith s (String "194" (String "133" "")) then 2
      else if startswith s (String "226" (String "128" (String "168" "")))
              || startswith s (String "226" (String "128" (String "169" ""))) then 3
      else 0
  end.

(** [s.splitlines()]: a final line is produced only when it is not empty;
    [skip] counts the bytes still to pass of a boundary that has been
    recognised. *)
Fixpoint splitlines_go (skip : nat) (cur : string) (s : string) : list string :=
  match s with
  | "" => match cur with "" => [] | _ => [String.rev cur] end
  | String c r =>
      match skip with
      | S k => splitlines_go k cur r
      | O =>
          match linebreak_width s with
          | S k => String.rev cur :: splitlines_go k "" r
          | O => splitlines_go 0 (String c cur) r
          end
      end
  end.

Definition splitlines (s : string) : list string := splitlines_go 0 "" s.

(** [int(s)] on a token without blanks: an optional sign, then the digits
    "0" to "9", in which single underscores may separate digits.  [None]
    stands for the [ValueError].  The decimal digits of other scripts, which
    [int] reads as well, and the interpreter's limit on the number of digits
    of a decimal literal are not modelled. *)
Fixpoint digits_go (acc : N) (s : string) : option N :=
  match s with
  | "" => Some acc
  | String c r =>
      match digit_val c with
      | Some d => digits_go (10 * acc + d) r
      | None =>
          if Ascii.eqb c "_" then
            match r with
            | String c' r' =>
                match digit_val c' with
                | Some d => digits_go (10 * acc + d) r'
                | None => None
                end
            | "" => None
            end
          else None
      end
  end.

Definition unsigned_of_str (s : string) : option N :=
  match s with
  | String c r =>
      match digit_val c with
      | Some d => digits_go d r
      | None => None
      end
  | "" => None
  end.

Definition int_of_str (s : string) : option Z :=
  match s with
  | String "+" r => Z.of_N <$> unsigned_of_str r
  | String "-" r => (fun n => (- Z.of_N n)%Z) <$> unsigned_of_str r
  | _ => Z.of_N <$> unsigned_of_str s
  end.

(** Every character of [s] is in the class [p]. *)
Fixpoint all_chars (p : ascii → bool) (s : string) : Prop :=
  match s with
  | "" => True
  | String c r => p c = true ∧ all_chars p r
  end.

(** No blank starts anywhere in [s]. *)
Fixpoint no_space (s : string) : Prop :=
  match s with
  | "" => True
  | String _ r => blank_width s = 0 ∧ no_space r
  end.

End PyStr.

(** ** DeviceAliasManager ([discovery/device.py]) *)

Module Alias.

(** The number an existing alias occupies, as [_next_index] reads it: the
    alias must start with "bjorn " once lower-cased, and its last
    blank-separated token must be accepted by [int].  [None] covers both the
    failed prefix test and the swallowed exception. *)
Definition alias_number (alias : string) : option Z :=
  if PyStr.startswith (PyStr.lower alias) "bjorn "
  then PyStr.last_token alias ≫= PyStr.int_of_str
  else None.

(** The set [used] built by the [for] loop of [_next_index]. *)
Definition used_numbers (m : gmap string string) : gset Z :=
  list_to_set (omap alias_number (map_to_list m).*2).

(** [n = 1; while n in used: n += 1].  The loop leaves after at most
    [size used] increments; [fuel] counts the increments still allowed. *)
Fixpoint first_free (fuel : nat) (used : gset Z) (n : Z) : Z :=
  if decide (n ∈ used) then
    match fuel with
    | O => n
    | S fuel' => first_free fuel' used (n + 1)
    end
  else n.

Definition _next_index (m : gmap string string) : Z :=
  let used := used_numbers m in
  first_free (size used) used 1.

(** [f"Bjorn {n}"]. *)
Definition bjorn (n : Z) : string := "Bjorn " +:+ pretty n.

(** [alias_for]: the alias returned and the map afterwards.  [_save] does
    nothing observable here: without a path it returns at once, with a path
    it writes the file and swallows every error. *)
Definition alias_for (device_id : string) (m : gmap string string)
  : string * gmap string string :=
  match m !! device_id with
  | Some alias => (alias, m)
  | None =>
      let alias := bjorn (_next_index m) in
      (alias, <[device_id := alias]> m)
  end.

(** Successive [alias_for] calls, collecting the aliases returned. *)
Fixpoint alias_for_all (keys : list string) (m : gmap string string)
  : list string * gmap string string :=
  match keys with
  | [] => ([], m)
  | k :: ks =>
      let '(a, m1) := alias_for k m in
      let '(as_, m2) := alias_for_all ks m1 in
      (a :: as_, m2)
  end.

(** The alias is well formed and carries the number [k]: it starts with
    "bjorn " up to case and [int] reads [k] from its last token. *)
Definition occupies (alias : string) (k : Z) : Prop :=
  PyStr.startswith (PyStr.lower alias) "bjorn " = true
  ∧ ∃ token, PyStr.last_token alias = Some token ∧ PyStr.int_of_str token = Some k.

(** Some alias of the map carries the number [k]. *)
Definition taken (m : gmap string string) (k : Z) : Prop :=
  ∃ key alias, m !! key = Some alias ∧ occupies alias k.

(** No alias is bound to two keys. *)
Definition injective_aliases (m : gmap string string) : Prop :=
  ∀ k1 k2 alias, m !! k1 = Some alias → m !! k2 = Some alias → k1 = k2.

(** The aliases of the map are "Bjorn 1" to "Bjorn N", [N] being the number
    of keys: every alias is formatted from a number, and the numbers carried
    are exactly [1 .. N]. *)
Definition dense (m : gmap string string) : Prop :=
  (∀ key alias, m !! key = Some alias → ∃ n, (1 ≤ n)%Z ∧ alias = bjorn n)
  ∧ (∀ n, n ∈ used_numbers m ↔ (1 ≤ n ≤ Z.of_nat (size m))%Z).

End Alias.

(** ** DeviceAliasManager on a map read from its file

    [Alias] takes the map at its declared type, [dict[str, str]], which is
    what a [Discovery] holds: it builds its alias manager without a path.
    With a path, [_load] stores whatever [json.load] returns.  This module
    follows [_next_index] and [alias_for] on a JSON object whose values may
    be of any JSON type; a file whose top-level value is no object is left
    out. *)

Module Loaded.

(** A value of the object: a string, or a value of another JSON type
    (numbers by their literal; what an array or an object holds plays no
    part). *)
Inductive jvalue :=
| JString (s : string)
| JNumber (literal : string)
| JBool (b : bool)
| JNull
| JArray
| JObject.

(** What the path leads to: a file that [open] or [json.load] rejects, or a
    JSON object. *)
Inductive file :=
| Unreadable
| Object (m : gmap string jvalue).

(** [_load]: the map is the object read, and empty after any exception. *)
Definition _load (f : file) : gmap string jvalue :=
  match f with
  | Unreadable => ∅
  | Object m => m
  end.

(** The result of a call: a value, or the [AttributeError] of [alias.lower()]
    on a value that is no string, which nothing catches. *)
Inductive res (A : Type) :=
| Ok (a : A)
| AttributeError.
Arguments Ok {A} a.
Arguments AttributeError {A}.

(** The [for] loop of [_next_index] over [self.map.values()].
    [alias.lower()] stands before the [try]: on a string the guarded part
    adds the number or passes over the alias, on any other value the call
    raises. *)
Fixpoint used_of (aliases : list jvalue) (used : gset Z) : res (gset Z) :=
  match aliases with
  | [] => Ok used
  | JString alias :: rest =>
      used_of rest (match Alias.alias_number alias with
                    | Some n => used ∪ {[n]}
                    | None => used
                    end)
  | _ :: _ => AttributeError
  end.

Definition _next_index (m : gmap string jvalue) : res Z :=
  match used_of (map_to_list m).*2 ∅ with
  | Ok used => Ok (Alias.first_free (size used) used 1)
  | AttributeError => AttributeError
  end.

(** [alias_for]: a known id gets the value stored, whatever its type. *)
Definition alias_for (device_id : string) (m : gmap string jvalue)
  : res (jvalue * gmap string jvalue) :=
  match m !! device_id with
  | Some alias => Ok (alias, m)
  | None =>
      match _next_index m with
      | Ok n =>
          let alias := JString (Alias.bjorn n) in
          Ok (alias, <[device_id := alias]> m)
      | AttributeError => AttributeError
      end
  end.

Definition is_string (v : jvalue) : bool :=
  match v with JString _ => true | _ => false end.

End Loaded.

(** ** Events pushed to the callback

    [callback(event_type, *args)], one constructor per event type. *)

Inductive event :=
| Log (message level : string)
| Progress (current total : Z) (text : string)
| DeviceFound (alias ip : string) (has_webapp : bool)
| DeviceGone (ip : string)
| WebappStatus (ip : string) (up : bool).

(** The address an event is about, if any. *)
Definition event_ip (e : event) : option string :=
  match e with
  | DeviceFound _ ip _ | DeviceGone ip | WebappStatus ip _ => Some ip
  | Log _ _ | Progress _ _ _ => None
  end.

(** ** Discovery ([discovery/manager.py]) *)

Module Discovery.

(** A registry record: [{"alias": str, "ips": set[str], "last_seen": float}]. *)
Record rec := Rec {
  rec_alias : string;
  rec_ips : gset string;
  rec_last_seen : Z
}.

(** The fields of a [Discovery] object that the sighting pipeline, the poller
    and the sweeper read or write.  [api_callback] records whether a callback
    was given; [alias_mgr] is the [map] of the alias manager. *)
Record state := State {
  api_callback : bool;
  strict_bjorn_only : bool;
  _seen_ips : gset string;
  alias_mgr : gmap string string;
  _registry : gmap string rec;
  _stale_timeout : Z;
  _ignored_ips : gset string
}.

(** [if self.api_callback: self.api_callback(...)]. *)
Definition notify (s : state) (e : event) : list event :=
  if api_callback s then [e] else [].

(** [_build_ignored_ips].  The inputs are what [netifaces] delivered before
    any exception cut a [try] block short: the default gateway, the first
    elements of the gateway entries, the addresses of the own interfaces. *)
Definition common_router_ips : list string :=
  ["192.168.1.1"; "192.168.0.1"; "192.168.1.254"; "10.0.0.1"].

Definition _build_ignored_ips
    (default_gw : option string) (gw_entries own_addrs : list string) : gset string :=
  list_to_set (option_list default_gw ++ gw_entries ++ common_router_ips ++ own_addrs).

(** [Discovery.__init__]. *)
Definition init (callback strict : bool) (ignored : gset string) : state :=
  {| api_callback := callback; strict_bjorn_only := strict;
     _seen_ips := ∅; alias_mgr := ∅; _registry := ∅;
     _stale_timeout := 90; _ignored_ips := ignored |}.

Definition _ip_tag (ip : string) : string :=
  if PyStr.startswith ip "172.20.2." then "USB"
  else if PyStr.startswith ip "172.20.1." then "Bluetooth"
  else "LAN".

(** [h = host.strip().lower().rstrip(".")], shared by [_normalize_host] and
    [_is_bjorn_hostname]. *)
Definition canon (host : string) : string :=
  PyStr.rstrip_dot (PyStr.lower (PyStr.strip host)).

Definition _normalize_host (host : option string) : string :=
  match host with
  | None | Some "" => ""
  | Some host =>
      let h := canon host in
      if PyStr.endswith h ".local" then PyStr.drop_end 6 h
      else if PyStr.endswith h ".home" then PyStr.drop_end 5 h
      else h
  end.

Definition _is_bjorn_hostname (host_or_fullname : string) : bool :=
  match host_or_fullname with
  | "" => false
  | _ =>
      let s := canon host_or_fullname in
      if bool_decide (s = "bjorn.local") || bool_decide (s = "bjorn.home") then true
      else if PyStr.startswith s "bjorn"
              && (PyStr.endswith s ".local" || PyStr.endswith s ".home") then true
      else bool_decide (s = "bjorn")
           || PyStr.startswith s "bjorn-" || PyStr.startswith s "bjorn_"
  end.

(** The accepted names in words, on the canonical form [s]: the bare name,
    the name followed by [-] or [_] and anything, and the name followed by
    anything and a [.local] or [.home] suffix. *)
Definition bjorn_name (s : string) : Prop :=
  s = "bjorn"
  ∨ (∃ t, s = "bjorn-" +:+ t)
  ∨ (∃ t, s = "bjorn_" +:+ t)
  ∨ (∃ t, s = "bjorn" +:+ t +:+ ".local")
  ∨ (∃ t, s = "bjorn" +:+ t +:+ ".home").

(** [_reverse_hostname]: [rdns] is the name [gethostbyaddr] returned, [None]
    when it raised. *)
Definition _reverse_hostname (rdns : option string) : option string :=
  (fun host => PyStr.lower (PyStr.strip host)) <$> rdns.

(** [label or alternative]. *)
Definition str_or (label : string) (alternative : option string) : option string :=
  match label with
  | "" => alternative
  | _ => Some label
  end.

(** [_device_key]; [rdns] is the reverse lookup it performs when [label] is
    empty. *)
Definition _device_key (label ip : string) (rdns : option string) : string :=
  let host := _normalize_host (str_or label (_reverse_hostname rdns)) in
  if _is_bjorn_hostname host then host else ip.

(** One call of [_emit_device], with everything it reads from outside:
    the two possible reverse lookups (in [_emit_device] itself and in
    [_device_key]), the clock and the port-8000 probe. *)
Record sighting := Sighting {
  sg_label : string;
  sg_ip : string;
  sg_rdns1 : option string;
  sg_rdns2 : option string;
  sg_now : Z;
  sg_probe : bool
}.

Definition _is_ignored_ip (s : state) (ip : string) : bool :=
  bool_decide (ip ∈ _ignored_ips s).

Definition sighting_host (sg : sighting) : string :=
  _normalize_host (str_or (sg_label sg) (_reverse_hostname (sg_rdns1 sg))).

Definition _emit_device (sg : sighting) (s : state) : state * list event :=
  let ip := sg_ip sg in
  if _is_ignored_ip s ip then (s, []) else
  let seen := _seen_ips s ∪ {[ip]} in
  let s1 := {| api_callback := api_callback s; strict_bjorn_only := strict_bjorn_only s;
               _seen_ips := seen; alias_mgr := alias_mgr s; _registry := _registry s;
               _stale_timeout := _stale_timeout s; _ignored_ips := _ignored_ips s |} in
  let host := sighting_host sg in
  if strict_bjorn_only s && negb (_is_bjorn_hostname host) then (s1, []) else
  let device_key := _device_key host ip (sg_rdns2 sg) in
  let tag := _ip_tag ip in
  let '(base_alias, aliases) := Alias.alias_for device_key (alias_mgr s) in
  let alias := base_alias +:+ " (" +:+ tag +:+ ")" in
  let now := sg_now sg in
  let found := _registry s !! device_key in
  let is_new_device := bool_decide (found = None) in
  let rec0 := default (Rec base_alias ∅ now) found in
  let is_new_ip_for_device := bool_decide (ip ∉ rec_ips rec0) in
  let ips := if is_new_ip_for_device then rec_ips rec0 ∪ {[ip]} else rec_ips rec0 in
  let rec1 := Rec (rec_alias rec0) ips now in
  let s2 := {| api_callback := api_callback s; strict_bjorn_only := strict_bjorn_only s;
               _seen_ips := seen; alias_mgr := aliases;
               _registry := <[device_key := rec1]> (_registry s);
               _stale_timeout := _stale_timeout s; _ignored_ips := _ignored_ips s |} in
  (s2, if is_new_device || is_new_ip_for_device
       then notify s (DeviceFound alias ip (sg_probe sg))
       else []).

(** One pass of the body of [_sweeper_loop].  [sweep_scan] is the [for] loop
    over [list(self._registry.items())]: it returns the [(key, ip)] pairs for
    which [device_gone] is raised, in order, and the list [to_delete]. *)
Definition is_stale (now timeout : Z) (r : rec) : bool :=
  (timeout <? now - rec_last_seen r)%Z.

Fixpoint sweep_scan (now timeout : Z) (items : list (string * rec))
  : list (string * string) * list string :=
  match items with
  | [] => ([], [])
  | (key, r) :: rest =>
      let '(gone, to_delete) := sweep_scan now timeout rest in
      if is_stale now timeout r
      then (((fun ip => (key, ip)) <$> elements (rec_ips r)) ++ gone, key :: to_delete)
      else (gone, to_delete)
  end.

(** [for key in to_delete: self._registry.pop(key, None)]. *)
Definition pop_all (to_delete : list string) (reg : gmap string rec) : gmap string rec :=
  foldl (fun m key => delete key m) reg to_delete.

Definition sweep_gone (now : Z) (s : state) : list (string * string) :=
  (sweep_scan now (_stale_timeout s) (map_to_list (_registry s))).1.

Definition sweep (now : Z) (s : state) : state * list event :=
  let '(gone, to_delete) :=
    sweep_scan now (_stale_timeout s) (map_to_list (_registry s)) in
  ({| api_callback := api_callback s; strict_bjorn_only := strict_bjorn_only s;
      _seen_ips := _seen_ips s; alias_mgr := alias_mgr s;
      _registry := pop_all to_delete (_registry s);
      _stale_timeout := _stale_timeout s; _ignored_ips := _ignored_ips s |},
   flat_map (fun p => notify s (DeviceGone p.2)) gone).

(** One cycle of [_port8000_poll]: [up] is the outcome of the probe of each
    address, [completed] the number of futures handled before the stop flag
    broke the loop. *)
Definition poll (up : string → bool) (completed : nat) (s : state) : list event :=
  flat_map (fun ip => notify s (WebappStatus ip (up ip)))
           (take completed (elements (_seen_ips s))).

(** [reset], as far as the state goes: the thread and Zeroconf handling of
    [stop] and [start] touches none of these fields. *)
Definition reset (s : state) : state :=
  {| api_callback := api_callback s; strict_bjorn_only := strict_bjorn_only s;
     _seen_ips := ∅; alias_mgr := ∅; _registry := ∅;
     _stale_timeout := _stale_timeout s; _ignored_ips := _ignored_ips s |}.

(** [_log]. *)
Definition _log (s : state) (message level : string) : list event :=
  notify s (Log message level).

(** What the threads of a running [Discovery] do to it, one atomic step each. *)
Inductive op :=
| OpSight (sg : sighting)
| OpSweep (now : Z)
| OpPoll (up : string → bool) (completed : nat)
| OpReset
| OpLog (message level : string).

Definition step (o : op) (s : state) : state * list event :=
  match o with
  | OpSight sg => _emit_device sg s
  | OpSweep now => sweep now s
  | OpPoll up completed => (s, poll up completed s)
  | OpReset => (reset s, [])
  | OpLog message level => (s, _log s message level)
  end.

(** Runs a schedule; the events of each step are kept apart. *)
Fixpoint run (ops : list op) (s : state) : state * list (list event) :=
  match ops with
  | [] => (s, [])
  | o :: rest =>
      let '(s1, evs) := step o s in
      let '(s2, evss) := run rest s1 in
      (s2, evs :: evss)
  end.

Definition trace (ops : list op) (s : state) : list event :=
  concat (run ops s).2.

(** The key under which an accepted sighting is registered; [None] for a
    sighting the pipeline drops (ignored address, or strict mode and a host
    name that is not a Bjorn name). *)
Definition sighting_key (s : state) (sg : sighting) : option string :=
  if _is_ignored_ip s (sg_ip sg) then None
  else if strict_bjorn_only s && negb (_is_bjorn_hostname (sighting_host sg)) then None
  else Some (_device_key (sighting_host sg) (sg_ip sg) (sg_rdns2 sg)).

(** The event of a new entry: [device_found] with the alias and its tag. *)
Definition found_event (s : state) (sg : sighting) (key : string) : list event :=
  notify s (DeviceFound ((Alias.alias_for key (alias_mgr s)).1
                           +:+ " (" +:+ _ip_tag (sg_ip sg) +:+ ")")
                        (sg_ip sg) (sg_probe sg)).

(** [(key, ip)] is on record. *)
Definition known (s : state) (key ip : string) : Prop :=
  ∃ r, _registry s !! key = Some r ∧ ip ∈ rec_ips r.

(** No ignored address is in the seen set or in a record. *)
Definition clean (s : state) : Prop :=
  (∀ ip, ip ∈ _ignored_ips s → ip ∉ _seen_ips s)
  ∧ (∀ key r ip, _registry s !! key = Some r → ip ∈ rec_ips r → ip ∉ _ignored_ips s).

(** What one stale record contributes to [sweep_scan]. *)
Definition gone_of (now timeout : Z) (item : string * rec) : list (string * string) :=
  if is_stale now timeout item.2
  then (fun ip => (item.1, ip)) <$> elements (rec_ips item.2)
  else [].

(** The text of an IPv4 address, as [socket.inet_ntoa] and
    [str(IPv4Address)] print it: four decimal numbers without leading zeros,
    joined by dots. *)
Definition dotted (a b c d : N) : string :=
  pretty a +:+ "." +:+ pretty b +:+ "." +:+ pretty c +:+ "." +:+ pretty d.

(** What [get_service_info] returned for an advertisement: the server and
    the service name, and for each address what [inet_ntoa] made of it
    ([None] when it raised) together with what [_emit_device] would read from
    outside for it; the label of these sightings is set by [_on_service]. *)
Record service_info := ServiceInfo {
  si_server : option string;
  si_name : option string;
  si_addresses : list (option sighting)
}.

Definition with_label (label : string) (sg : sighting) : sighting :=
  Sighting label (sg_ip sg) (sg_rdns1 sg) (sg_rdns2 sg) (sg_now sg) (sg_probe sg).

(** [(info.server or info.name or "").rstrip(".")]. *)
Definition service_server (info : service_info) : string :=
  PyStr.rstrip_dot
    (match si_server info with
     | Some (String c r) => String c r
     | _ => default "" (si_name info)
     end).

(** The [for addr in info.addresses] loop of [_on_service]; the [return] of
    the strict test ends it. *)
Fixpoint on_service_loop (server : string) (addresses : list (option sighting))
    (s : state) : state * list event :=
  match addresses with
  | [] => (s, [])
  | None :: rest => on_service_loop server rest s
  | Some sg :: rest =>
      let label := match server with "" => "bjorn" | _ => server end in
      if strict_bjorn_only s && negb (_is_bjorn_hostname server) then (s, [])
      else
        let '(s1, evs) := _emit_device (with_label label sg) s in
        let '(s2, evs') := on_service_loop server rest s1 in
        (s2, evs ++ evs')
  end.

(** [_on_service]; [info] is [None] when [get_service_info] found nothing or
    raised. *)
Definition _on_service (info : option service_info) (s : state) : state * list event :=
  match info with
  | None => (s, [])
  | Some info => on_service_loop (service_server info) (si_addresses info) s
  end.

(** What every record of the registry satisfies in a running [Discovery]:
    its alias is the one the alias manager holds for its key, it has an
    address, its addresses are in the seen set, and a key that is not a Bjorn
    name is the only address of its record. *)
Definition sound (s : state) : Prop :=
  ∀ key r, _registry s !! key = Some r →
    alias_mgr s !! key = Some (rec_alias r)
    ∧ rec_ips r ≠ ∅
    ∧ rec_ips r ⊆ _seen_ips s
    ∧ (_is_bjorn_hostname key = false → rec_ips r = {[key]}).

End Discovery.

(** ** SSHWorker ([ssh/worker.py]) *)

Module SSH.

(** What a method does to the outside world, in order: events pushed to the
    callback, [client.connect] with the credentials it
    carries, [transport.set_keepalive], [chan.send] on the installation
    channel, and the call of [self.reboot()]. *)
Inductive action :=
| Emit (e : event)
| ClientConnect (key_filename passphrase password : option string)
| SetKeepalive (interval : Z)
| ChanSend (data : string)
| Reboot.

Definition log (message level : string) : list action := [Emit (Log message level)].

(** *** Text of the installation channel *)

Definition byte_in (lo hi : N) (c : ascii) : bool :=
  let n := N_of_ascii c in ((lo <=? n) && (n <=? hi))%N.

Definition is_cont (c : ascii) : bool := byte_in 128 191 c.

(** [data.decode("utf-8", errors="ignore")]: well-formed sequences are kept
    (a non-ASCII character stays as the bytes of its encoding), every other
    byte above 127 is dropped. *)
Fixpoint decode_ignore (data : string) : string :=
  match data with
  | "" => ""
  | String b0 r0 =>
      if byte_in 0 127 b0 then String b0 (decode_ignore r0) else
      match r0 with
      | "" => ""
      | String b1 r1 =>
          if byte_in 194 223 b0 && is_cont b1
          then String b0 (String b1 (decode_ignore r1)) else
          match r1 with
          | "" => decode_ignore r0
          | String b2 r2 =>
              if (byte_in 224 224 b0 && byte_in 160 191 b1
                  || byte_in 225 236 b0 && is_cont b1
                  || byte_in 237 237 b0 && byte_in 128 159 b1
                  || byte_in 238 239 b0 && is_cont b1) && is_cont b2
              then String b0 (String b1 (String b2 (decode_ignore r2))) else
              match r2 with
              | "" => decode_ignore r0
              | String b3 r3 =>
                  if (byte_in 240 240 b0 && byte_in 144 191 b1
                      || byte_in 241 243 b0 && is_cont b1
                      || byte_in 244 244 b0 && byte_in 128 143 b1)
                     && is_cont b2 && is_cont b3
                  then String b0 (String b1 (String b2 (String b3 (decode_ignore r3))))
                  else decode_ignore r0
              end
          end
      end
  end.

(** The longest prefix of characters satisfying [p], and the rest. *)
Fixpoint span (p : ascii → bool) (s : string) : string * string :=
  match s with
  | "" => ("", "")
  | String c r =>
      if p c then let '(a, b) := span p r in (String c a, b) else ("", s)
  end.

(** One or more characters of a class, all of them taken: [\s+], [\d+]. *)
Definition plus (p : ascii → bool) (s : string) : option (string * string) :=
  match span p s with
  | ("", _) => None
  | (a, b) => Some (a, b)
  end.

(** A literal of the pattern under [re.I], for the letters "t", "e", "p",
    "o" and "f", which the flag makes equal to their capitals only. *)
Fixpoint literal_ci (lit s : string) {struct lit} : option string :=
  match lit, s with
  | "", _ => Some s
  | String a lit', String b s' =>
      if Ascii.eqb (PyStr.lower_char a) (PyStr.lower_char b)
      then literal_ci lit' s' else None
  | String _ _, "" => None
  end.

(** The letter "S" of the pattern under [re.I]: "S", "s", and U+017F, which
    the flag makes equal to them. *)
Definition letter_s (s : string) : option string :=
  match s with
  | String c r =>
      if Ascii.eqb (PyStr.lower_char c) "s" then Some r
      else if PyStr.startswith s (String "197" (String "191" ""))
      then Some (PyStr.drop_start 2 s)
      else None
  | "" => None
  end.

(** [\s+]: one or more blanks, all of them taken; what follows them. *)
Definition blanks_plus (s : string) : option string :=
  match PyStr.blank_width s with
  | O => None
  | S _ => Some (PyStr.lstrip s)
  end.

(** [STEP_PATTERN] anchored at the start of [s]:
    [Step\s+(\d+)\s+of\s+(\d+)], case-insensitive; the two groups.  Each
    class is followed by something outside it, so the greedy match is the
    only one.  [\d] is read on the digits 0 to 9: the decimal digits of other
    scripts, which the pattern and [int] take as well, are not in the
    model. *)
Definition step_match_here (s : string) : option (string * string) :=
  r0 ← letter_s s;
  r1 ← literal_ci "tep" r0;
  r2 ← blanks_plus r1;
  '(g1, r3) ← plus PyStr.is_digit r2;
  r4 ← blanks_plus r3;
  r5 ← literal_ci "of" r4;
  r6 ← blanks_plus r5;
  '(g2, _) ← plus PyStr.is_digit r6;
  Some (g1, g2).

(** [STEP_PATTERN.search(line)]: the leftmost match. *)
Fixpoint step_search (line : string) : option (string * string) :=
  match step_match_here line with
  | Some g => Some g
  | None =>
      match line with
      | "" => None
      | String _ r => step_search r
      end
  end.

(** [int(g)] for a group of [\d+]. *)
Definition int_of_group (g : string) : Z :=
  default 0%Z (PyStr.int_of_str g).

(** [update_progress(int(m.group(1)), int(m.group(2)), f"Step {..}/{..}")]. *)
Definition progress_of (g : string * string) : event :=
  Progress (int_of_group g.1) (int_of_group g.2) ("Step " +:+ g.1 +:+ "/" +:+ g.2).

(** The body of [for line in text.splitlines()] in the main loop. *)
Definition handle_line (line : string) : list action :=
  match PyStr.strip line with
  | "" => []
  | _ =>
      log line "info" ++
      match step_search line with
      | Some g => [Emit (progress_of g)]
      | None => []
      end
  end.

(** The same in the drain loop, which only logs. *)
Definition drain_line (line : string) : list action :=
  match PyStr.strip line with
  | "" => []
  | _ => log line "info"
  end.

Definition handle_data (data : string) : list action :=
  flat_map handle_line (PyStr.splitlines (decode_ignore data)).

Definition drain_data (data : string) : list action :=
  flat_map drain_line (PyStr.splitlines (decode_ignore data)).

(** *** The loop of [run_install] *)

(** What the channel shows during one turn of [while True]:
    [recv] is the data of [chan.recv(4096)] when [recv_ready()] holds;
    [exit] is present when [exit_status_ready()] holds, with the chunks the
    drain loop then receives and the exit status.  [Fault] is a turn in which
    a channel operation raises. *)
Inductive turn :=
| Turn (recv : option string) (exit : option (list string * Z))
| Fault (exc : string).

(** [pw_sent] and [buff]. *)
Record loop_state := LoopState {
  pw_sent : bool;
  buff : string
}.

Definition loop_init : loop_state := LoopState false "".

Inductive outcome :=
| Returned (ok : bool)
| StillRunning.

(** [buff += data] and the line handling of the [recv_ready] branch. *)
Definition on_recv (recv : option string) (st : loop_state)
  : loop_state * list action :=
  match recv with
  | Some data => (LoopState (pw_sent st) (buff st +:+ data), handle_data data)
  | None => (st, [])
  end.

Definition has_prompt (buffer : string) : bool :=
  let lower_buff := PyStr.lower buffer in
  PyStr.contains lower_buff "[sudo]" || PyStr.contains lower_buff "password for".

Definition newline : string := String "010" "".

(** The [if not pw_sent] block. *)
Definition on_prompt (password : string) (st : loop_state)
  : loop_state * list action :=
  if negb (pw_sent st) && has_prompt (buff st)
  then (LoopState true "",
        ChanSend (password +:+ newline) :: log "[SUDO] Password sent" "info")
  else (st, []).

(** The [if chan.exit_status_ready()] block, up to its [return]. *)
Definition on_exit (reboot_after : bool) (drain : list string) (rc : Z)
  : list action * bool :=
  (flat_map drain_data drain
   ++ (if (rc =? 0)%Z
       then log "Installation completed successfully!" "success"
       else log ("Installation failed with exit code " +:+ pretty rc) "error")
   ++ (if reboot_after && (rc =? 0)%Z then [Reboot] else []),
   (rc =? 0)%Z).

(** The loop on a finite script of turns.  [StillRunning]: the script ended
    before the exit status was ready. *)
Fixpoint install_loop (password : string) (reboot_after : bool)
    (turns : list turn) (st : loop_state) : list action * outcome :=
  match turns with
  | [] => ([], StillRunning)
  | Fault exc :: _ =>
      (log ("Error during installation: " +:+ exc) "error", Returned false)
  | Turn recv exit :: rest =>
      let '(st1, a1) := on_recv recv st in
      let '(st2, a2) := on_prompt password st1 in
      match exit with
      | Some (drain, rc) =>
          let '(a3, ok) := on_exit reboot_after drain rc in
          (a1 ++ a2 ++ a3, Returned ok)
      | None =>
          let '(a3, out) := install_loop password reboot_after rest st2 in
          (a1 ++ a2 ++ a3, out)
      end
  end.

(** [SSHConfig]. *)
Record SSHConfig := {
  host : string;
  port : Z;
  user : string;
  password : option string;
  key_path : option string;
  sudo_password : option string
}.

(** A Python value used as a condition: [None] and the empty string are
    false. *)
Definition truthy (o : option string) : option string :=
  match o with
  | Some "" => None
  | _ => o
  end.

(** [self._config.sudo_password or self._config.password], else the empty
    string. *)
Definition escalation_password (cfg : SSHConfig) : string :=
  match truthy (sudo_password cfg) with
  | Some p => p
  | None => default "" (truthy (password cfg))
  end.

(** [run_install] from the opening of the channel on. *)
Definition run_install (cfg : SSHConfig) (reboot_after : bool) (turns : list turn)
  : list action * outcome :=
  install_loop (escalation_password cfg) reboot_after turns loop_init.

(** The progress events and the channel writes of a run. *)
Definition progress_events (acts : list action) : list (Z * Z) :=
  omap (fun a => match a with Emit (Progress n t _) => Some (n, t) | _ => None end) acts.




(** The progress a line announces, if it holds the marker. *)
Definition line_progress (line : string) : option (Z * Z) :=
  (fun g => (int_of_group g.1, int_of_group g.2)) <$> step_search line.

(** *** [connect] *)

(** The exception classes [connect] tells apart: the three its inner handler
    names ([AuthenticationException] is a subclass of [SSHException]), and
    every other [Exception]. *)
Inductive exn_class :=
| AuthenticationException
| SSHException
| FileNotFoundError
| OtherException.

(** The result of a computation that may raise; [msg] is [str(exc)]. *)
Inductive res (A : Type) :=
| Ok (a : A)
| Raise (cls : exn_class) (msg : string).
Arguments Ok {A} a.
Arguments Raise {A} cls msg.

(** Computations that act on the world and may raise: the actions performed
    so far, and how the computation ended. *)
Definition M (A : Type) : Type := list action * res A.

#[global] Instance M_ret : MRet M := fun A a => ([], Ok a).

#[global] Instance M_bind : MBind M := fun A B f m =>
  match m with
  | (acts, Ok a) => let '(acts', r) := f a in (acts ++ acts', r)
  | (acts, Raise cls msg) => (acts, Raise cls msg)
  end.

(** Performs the actions [acts]. *)
Definition act (acts : list action) : M unit := (acts, Ok tt).

(** Performs [before], then ends as [r] does. *)
Definition attempt (before : list action) (r : res unit) : M unit := (before, r).

(** [try: m except <classes accepted by handles>: handler]. *)
Definition try_except {A} (m : M A) (handles : exn_class → bool)
    (handler : string → M A) : M A :=
  match m with
  | (acts, Raise cls msg) =>
      if handles cls then let '(acts', r) := handler msg in (acts ++ acts', r)
      else m
  | _ => m
  end.

(** What [connect] finds outside the program. *)
Record world := {
  (** [os.path.expanduser(os.path.expandvars(p))] *)
  expand : string → string;
  (** [os.path.isfile], [Path.is_file] *)
  isfile : string → bool;
  (** [Path.home() / ".ssh"], which raises when no home directory is known *)
  ssh_dir : res string;
  (** [client.connect] with [key_filename] and [passphrase] *)
  connect_with_key : string → option string → res unit;
  (** [client.connect] with [password] *)
  connect_with_password : string → res unit;
  (** [client.get_transport()] is not [None] *)
  has_transport : bool;
  (** [transport.set_keepalive(30)] *)
  keepalive : res unit
}.

Definition _PRIVATE_KEY_NAMES : list string := ["id_ed25519"; "id_rsa"; "id_ecdsa"].

(** [str(ssh_dir / name)]. *)
Definition joinpath (dir name : string) : string := dir +:+ "/" +:+ name.

(** [os.path.basename]: what follows the last slash. *)
Fixpoint basename_go (cur p : string) : string :=
  match p with
  | "" => String.rev cur
  | String c r => if Ascii.eqb c "/" then basename_go "" r else basename_go (String c cur) r
  end.

Definition basename (p : string) : string := basename_go "" p.

Definition _resolve_key_path (w : world) (cfg : SSHConfig) : M (option string) :=
  match truthy (key_path cfg) with
  | Some kp =>
      let expanded := expand w kp in
      mret (if isfile w expanded then Some expanded else None)
  | None =>
      dir ← (([], ssh_dir w) : M string);
      mret (List.find (isfile w) (joinpath dir <$> _PRIVATE_KEY_NAMES))
  end.

Definition inner_handles (cls : exn_class) : bool :=
  match cls with
  | AuthenticationException | SSHException | FileNotFoundError => true
  | OtherException => false
  end.

(** The body of the outer [try] of [connect]. *)
Definition connect_body (w : world) (cfg : SSHConfig) : M bool :=
  key ← _resolve_key_path w cfg;
  connected ←
    match truthy key with
    | Some kp =>
        let passphrase := truthy (password cfg) in
        try_except
          (attempt [ClientConnect (Some kp) passphrase None]
                   (connect_with_key w kp passphrase);;
           act (log ("[SSH] Connected via key: " +:+ basename kp) "info");;
           mret true)
          inner_handles
          (fun _ =>
             act (log "[SSH] Key auth failed, falling back to password" "warning");;
             mret false)
    | None => mret false
    end;
  (* [if not connected:] with its early [return False] *)
  proceed ←
    (if connected : bool then mret true else
     match truthy (password cfg) with
     | None =>
         act (log "[SSH] No password available for fallback auth" "error");;
         mret false
     | Some pw =>
         attempt [ClientConnect None None (Some pw)] (connect_with_password w pw);;
         act (log "[SSH] Connected via password" "info");;
         mret true
     end);
  if proceed : bool then
    (if has_transport w then attempt [SetKeepalive 30] (keepalive w) else mret tt);;
    mret true
  else mret false.

(** [connect]: the outer handler turns every exception into an error log and
    [False]. *)
Definition connect (w : world) (cfg : SSHConfig) : M bool :=
  try_except (connect_body w cfg) (fun _ => true)
    (fun msg => act (log ("[SSH] Connection failed: " +:+ msg) "error");; mret false).


Definition error_logged (acts : list action) : Prop :=
  ∃ message, Emit (Log message "error") ∈ acts.

End SSH.


(** ** SSHWorker: commands, transfers, service control ([ssh/worker.py]) *)

Module Session.

(** What a method asks of the callback, of the connection and of the local
    file system, in order.  [OpenSftp] records whether [client.open_sftp()]
    gave a session; the other requests are recorded as they are made, whether
    they succeed or raise. *)
Inductive call :=
| Callback (e : event)
| ExecCommand (command : string) (input_data : option string) (timeout : Z)
| OpenSftp (opened : bool)
| Put (local_path remote_path : string)
| WriteFile (remote_path content : string)
| Mkdir (path : string)
| ListDir (path : string)
| CloseSftp
| CloseClient.

(** The classes of exception the code tells apart here: the [RuntimeError] of
    [_ensure_connected], [IOError] (the one [upload_install_scripts] passes
    over when [mkdir] raises it), and every other [Exception]. *)
Inductive exn_class :=
| RuntimeError
| IOError
| OtherError.

(** The result of a computation that may raise; [msg] is [str(exc)]. *)
Inductive res (A : Type) :=
| Ok (a : A)
| Raise (cls : exn_class) (msg : string).
Arguments Ok {A} a.
Arguments Raise {A} cls msg.

Definition M (A : Type) : Type := list call * res A.

#[global] Instance M_ret : MRet M := fun A a => ([], Ok a).

#[global] Instance M_bind : MBind M := fun A B f m =>
  match m with
  | (calls, Ok a) => let '(calls', r) := f a in (calls ++ calls', r)
  | (calls, Raise cls msg) => (calls, Raise cls msg)
  end.

(** [self.log(message, level)]. *)
Definition log (message level : string) : M unit :=
  ([Callback (Log message level)], Ok tt).

(** The request [c], answered by [r]. *)
Definition ask {A} (c : call) (r : res A) : M A := ([c], r).

Definition raise {A} (cls : exn_class) (msg : string) : M A := ([], Raise cls msg).

(** [try: m except <classes accepted by handles>: handler]. *)
Definition try_except {A} (m : M A) (handles : exn_class → bool)
    (handler : string → M A) : M A :=
  match m with
  | (calls, Raise cls msg) =>
      if handles cls then let '(calls', r) := handler msg in (calls ++ calls', r)
      else m
  | _ => m
  end.

(** [try: m finally: f]: [f] runs however [m] ends, and an exception of [f]
    takes the place of the outcome of [m]. *)
Definition try_finally {A} (m : M A) (f : M unit) : M A :=
  let '(calls, r) := m in
  match f with
  | (calls', Ok _) => (calls ++ calls', r)
  | (calls', Raise cls msg) => (calls ++ calls', Raise cls msg)
  end.

(** How the remote side and the local file system answer.  Within one method
    no request but the opening and the closing of an SFTP session is made
    twice with the same arguments ([os.listdir] gives no name twice), so
    answers that depend on the arguments alone lose nothing. *)
Record world := {
  (** [client.exec_command(command)], [input_data] written to its standard
      input, followed to [recv_exit_status()] and to the end of both outputs:
      the exit status, the output and the error output, or the exception one
      of these steps raised *)
  exec : string → option string → res (Z * string * string);
  (** [client.open_sftp()] *)
  open_sftp : res unit;
  (** [sftp.put(local, remote)] *)
  put : string → string → res unit;
  (** writing [content] to [remote] through [sftp.file(remote, "w")] *)
  write_file : string → string → res unit;
  (** [sftp.mkdir(path)] *)
  mkdir : string → res unit;
  (** [sftp.close()] *)
  close_sftp : res unit;
  (** [os.listdir(path)] *)
  listdir : string → res (list string);
  (** [os.path.join] *)
  path_join : string → string → string
}.

(** The field [_client] of the worker (is it a client, or [None]?) and its
    field [_connected]. *)
Record session := {
  _client : bool;
  _connected : bool
}.

(** *** [shlex.quote] *)

(** The characters outside the class [[^\w@%+=:,./-]] of [shlex], which is
    compiled with [re.ASCII]. *)
Definition is_safe_char (c : ascii) : bool :=
  let n := N_of_ascii c in
  ((48 <=? n) && (n <=? 57) || (65 <=? n) && (n <=? 90) || (97 <=? n) && (n <=? 122))%N
  || bool_decide (c ∈ ["_"; "@"; "%"; "+"; "="; ":"; ","; "."; "/"; "-"]%char).

Fixpoint all_safe (s : string) : bool :=
  match s with
  | "" => true
  | String c r => is_safe_char c && all_safe r
  end.

Definition sq : string := String "039" "".
Definition dq : string := String "034" "".

(** [s.replace] of every single quote by: single quote, double quote, single
    quote, double quote, single quote. *)
Fixpoint escape_quotes (s : string) : string :=
  match s with
  | "" => ""
  | String c r =>
      if Ascii.eqb c "039" then sq +:+ dq +:+ sq +:+ dq +:+ sq +:+ escape_quotes r
      else String c (escape_quotes r)
  end.

(** [shlex.quote]: the empty text gives two single quotes, a text of safe
    characters is returned as it is, any other goes between single quotes with
    its own single quotes escaped. *)
Definition shlex_quote (s : string) : string :=
  match s with
  | "" => sq +:+ sq
  | _ => if all_safe s then s else sq +:+ escape_quotes s +:+ sq
  end.

(** *** The methods *)

(** [_ensure_connected]. *)
Definition _ensure_connected (st : session) : M unit :=
  if _client st then mret tt else raise RuntimeError "SSH client is not connected".

(** [exec_simple]. *)
Definition exec_simple (w : world) (st : session) (command : string)
    (input_data : option string) (timeout : Z) : M (Z * string * string) :=
  _ensure_connected st;;
  ask (ExecCommand command input_data timeout) (exec w command input_data).

(** [_sudo_exec]. *)
Definition _sudo_exec (w : world) (cfg : SSH.SSHConfig) (st : session)
    (command : string) (timeout : Z) : M (Z * string * string) :=
  exec_simple w st ("sudo -S " +:+ command)
    (Some (SSH.escalation_password cfg +:+ SSH.newline)) timeout.

(** [client.open_sftp()]. *)
Definition sftp_open (w : world) : M unit :=
  ask (OpenSftp (match open_sftp w with Ok _ => true | Raise _ _ => false end))
      (open_sftp w).

(** [upload_file]. *)
Definition upload_file (w : world) (st : session) (local_path remote_path : string)
  : M unit :=
  _ensure_connected st;;
  sftp_open w;;
  try_finally
    (log ("[SFTP] Upload " +:+ SSH.basename local_path +:+ " → " +:+ remote_path)
         "info";;
     ask (Put local_path remote_path) (put w local_path remote_path);;
     log "[SFTP] Upload complete." "success")
    (ask CloseSftp (close_sftp w)).

Definition restart_command : string := "systemctl restart bjorn.service".

(** [restart_bjorn_service]. *)
Definition restart_bjorn_service (w : world) (cfg : SSH.SSHConfig) (st : session)
  : M bool :=
  try_except
    (log "[SERVICE] Restarting BJORN service..." "info";;
     '(exit_code, _, err) ← _sudo_exec w cfg st restart_command 60;
     if (exit_code =? 0)%Z then
       log "[SERVICE] BJORN service restarted" "success";; mret true
     else
       log ("[SERVICE] Restart failed: " +:+ err) "error";; mret false)
    (fun _ => true)
    (fun msg => log ("[SERVICE] Restart failed: " +:+ msg) "error";; mret false).

(** The [sed] command of [change_epd_type]. *)
Definition epd_command (epd_version : string) : string :=
  "cd /home/bjorn/Bjorn && sed -i 's/" +:+ dq +:+ "epd_type" +:+ dq +:+ ": "
  +:+ dq +:+ "epd2in13_[^" +:+ dq +:+ "]*" +:+ dq +:+ "/" +:+ dq +:+ "epd_type" +:+ dq
  +:+ ": " +:+ shlex_quote epd_version +:+ "/g' shared.py".

Definition clear_command : string := "rm -rf /home/bjorn/Bjorn/config/*.json".

(** [change_epd_type]. *)
Definition change_epd_type (w : world) (cfg : SSH.SSHConfig) (st : session)
    (epd_version : string) : M bool :=
  try_except
    (log ("[CONFIG] Changing EPD type to " +:+ epd_version) "info";;
     '(exit_code, _, err) ← exec_simple w st (epd_command epd_version) None 15;
     if (exit_code =? 0)%Z then
       _sudo_exec w cfg st clear_command 15;;
       log "[CONFIG] Cleared configuration files" "info";;
       restart_bjorn_service w cfg st
     else
       log ("[CONFIG] EPD change failed: " +:+ err) "error";; mret false)
    (fun _ => true)
    (fun msg => log ("[CONFIG] EPD change failed: " +:+ msg) "error";; mret false).

Definition remote_zip : string := "/home/bjorn/Bjorn.zip".
Definition deploy_tmp : string := "/home/bjorn/deploy_tmp.sh".

(** The three commands of [deploy_bjorn_zip]. *)
Definition deploy_chmod : string := "chmod +x " +:+ shlex_quote deploy_tmp.
Definition deploy_run : string := "sudo -S bash " +:+ shlex_quote deploy_tmp.
Definition deploy_cleanup : string := "rm -f " +:+ shlex_quote deploy_tmp.

(** [deploy_bjorn_zip]; [deploy_script] stands for the text [_DEPLOY_SCRIPT],
    which the method only passes on.  The method opens two SFTP sessions, one
    after the other: [w] answers the requests of [upload_file], [w'] those
    made after it, so that the two sessions may fare differently. *)
Definition deploy_bjorn_zip (deploy_script : string) (w w' : world)
    (cfg : SSH.SSHConfig) (st : session) (local_zip_path : string) : M bool :=
  try_except
    (upload_file w st local_zip_path remote_zip;;
     log "[RUN] Extracting Bjorn.zip to /home/bjorn/Bjorn ..." "info";;
     _ensure_connected st;;
     sftp_open w';;
     try_finally
       (ask (WriteFile deploy_tmp deploy_script) (write_file w' deploy_tmp deploy_script))
       (ask CloseSftp (close_sftp w'));;
     exec_simple w' st deploy_chmod None 10;;
     '(exit_code, out, err) ←
       exec_simple w' st deploy_run
         (Some (SSH.escalation_password cfg +:+ SSH.newline)) 120;
     exec_simple w' st deploy_cleanup None 10;;
     (match PyStr.strip out with
      | "" => mret tt
      | stripped => log stripped "info"
      end);;
     if (exit_code =? 0)%Z then
       log "[DEPLOY] Bjorn.zip deployed successfully" "success";; mret true
     else
       log ("[DEPLOY] Failed (exit " +:+ pretty exit_code +:+ "): " +:+ err) "error";;
       mret false)
    (fun _ => true)
    (fun msg => log ("[DEPLOY] Failed: " +:+ msg) "error";; mret false).

(** The order of [sorted] on names: by code point, which on the encodings is
    the order of the bytes. *)
Definition name_le (a b : string) : Prop := String.leb a b.

#[global] Instance name_le_dec (a b : string) : Decision (name_le a b).
Proof. unfold name_le. apply _. Defined.

(** [sorted(names)]. *)
Definition sorted (names : list string) : list string := merge_sort name_le names.

Definition remote_install_script : string := "/home/bjorn/install_bjorn.sh".
Definition remote_lib : string := "/home/bjorn/lib".

(** The local and the remote path of the fragment [fname]. *)
Definition fragment (w : world) (local_lib fname : string) : string * string :=
  (path_join w local_lib fname, remote_lib +:+ "/" +:+ fname).

(** The loop of [upload_install_scripts] over the sorted names. *)
Fixpoint upload_fragments (w : world) (local_lib : string) (names : list string)
  : M unit :=
  match names with
  | [] => mret tt
  | fname :: rest =>
      (if PyStr.endswith fname ".sh" then
         log ("[SFTP] Uploading lib/" +:+ fname) "info";;
         ask (Put (fragment w local_lib fname).1 (fragment w local_lib fname).2)
             (put w (fragment w local_lib fname).1 (fragment w local_lib fname).2)
       else mret tt);;
      upload_fragments w local_lib rest
  end.

(** [upload_install_scripts]. *)
Definition upload_install_scripts (w : world) (st : session) (assets_dir : string)
  : M string :=
  _ensure_connected st;;
  sftp_open w;;
  try_finally
    (let local_script := path_join w assets_dir "install_bjorn.sh" in
     log "[SFTP] Uploading install_bjorn.sh" "info";;
     ask (Put local_script remote_install_script)
         (put w local_script remote_install_script);;
     try_except (ask (Mkdir remote_lib) (mkdir w remote_lib))
       (fun cls => match cls with IOError => true | _ => false end)
       (fun _ => mret tt);;
     let local_lib := path_join w assets_dir "lib" in
     names ← ask (ListDir local_lib) (listdir w local_lib);
     upload_fragments w local_lib (sorted names);;
     log "[SFTP] All install scripts uploaded" "success";;
     mret remote_install_script)
    (ask CloseSftp (close_sftp w)).

(** [close]: the state it leaves and what it does; an exception of
    [self._client.close()] is passed over, so the method itself raises
    nothing. *)
Definition close (st : session) : session * list call :=
  ({| _client := false; _connected := false |},
   (if _client st then [CloseClient] else [])
   ++ [Callback (Log "[SSH] Disconnected." "warning")]).

(** *** What the theorems say about a trace *)

(** The command lines of [_sudo_exec], and what it writes to their standard
    input. *)
Definition restart_line : string := "sudo -S " +:+ restart_command.
Definition clear_line : string := "sudo -S " +:+ clear_command.
Definition stdin_of (cfg : SSH.SSHConfig) : option string :=
  Some (SSH.escalation_password cfg +:+ SSH.newline).

(** Every SFTP session is closed: reading the calls in order with [depth]
    sessions open, each session that was opened is closed later, none is
    closed that was not opened, and none is left open at the end. *)
Fixpoint sftp_balanced (depth : nat) (calls : list call) : bool :=
  match calls with
  | [] => Nat.eqb depth 0
  | OpenSftp true :: rest => sftp_balanced (S depth) rest
  | CloseSftp :: rest =>
      match depth with
      | O => false
      | S d => sftp_balanced d rest
      end
  | _ :: rest => sftp_balanced depth rest
  end.

Definition error_logged (calls : list call) : Prop :=
  ∃ message, Callback (Log message "error") ∈ calls.

(** The transfers of a trace and its commands, in order. *)
Definition puts (calls : list call) : list (string * string) :=
  omap (fun c => match c with Put l r => Some (l, r) | _ => None end) calls.

Definition commands (calls : list call) : list string :=
  omap (fun c => match c with ExecCommand cmd _ _ => Some cmd | _ => None end) calls.

(** Calls that neither open nor close an SFTP session. *)
Definition no_sftp (calls : list call) : Prop :=
  Forall (fun c => c ≠ OpenSftp true ∧ c ≠ CloseSftp) calls.

(** The requests of a trace to the connection: all its calls but those to the
    callback and to the local file system. *)
Definition requests (calls : list call) : list call :=
  List.filter (fun c => match c with Callback _ | ListDir _ => false | _ => true end) calls.

End Session.

(** * Checks of the model on concrete inputs *)

(** Blanks outside the ASCII range: U+00A0 and U+2003 before a name,
    U+0085 after it; U+2020 is no blank. *)
Example strip_wide_ex :
  PyStr.strip (String "194" (String "160" (String "226" (String "128" (String "131"
     ("bjorn-01" +:+ String "194" (String "133" ""))))))) = "bjorn-01"
  ∧ PyStr.strip (String "226" (String "128" (String "160" "")))
    = String "226" (String "128" (String "160" ""))
  ∧ PyStr.split ("Bjorn 2" +:+ String "194" (String "160" "1")) = ["Bjorn"; "2"; "1"]
  ∧ PyStr.splitlines ("a" +:+ String "226" (String "128" (String "168" "b"))) = ["a"; "b"].
Proof. repeat split; vm_compute; reflexivity. Qed.

Example strip_ex : PyStr.strip "  Bjorn-01.local. " = "Bjorn-01.local.".
Proof. reflexivity. Qed.

Example splitlines_ex :
  PyStr.splitlines ("a" +:+ String "013" (String "010" (String "010" "b"))) = ["a"; ""; "b"].
Proof. reflexivity. Qed.

Example split_ex : PyStr.split "Bjorn  1 2 " = ["Bjorn"; "1"; "2"].
Proof. reflexivity. Qed.

Example int_ex :
  PyStr.int_of_str "1_0" = Some 10%Z ∧ PyStr.int_of_str "1__0" = None
  ∧ PyStr.int_of_str "-07" = Some (-7)%Z ∧ PyStr.int_of_str "x" = None.
Proof. repeat split; reflexivity. Qed.

Example alias_ex :
  (Alias.alias_for_all ["bjorn-a"; "bjorn-b"; "bjorn-a"; "10.0.0.7"] ∅).1
  = ["Bjorn 1"; "Bjorn 2"; "Bjorn 1"; "Bjorn 3"].
Proof. vm_compute. reflexivity. Qed.

Example alias_number_ex :
  Alias.alias_number "BJORN x 7" = Some 7%Z ∧ Alias.alias_number "bjorn " = None
  ∧ Alias.alias_number "Bjorn7" = None.
Proof. repeat split; reflexivity. Qed.

Example normalize_ex :
  Discovery._normalize_host (Some " Bjorn-01.LOCAL. ") = "bjorn-01"
  ∧ Discovery._normalize_host (Some "bjorn.home") = "bjorn"
  ∧ Discovery._normalize_host None = "".
Proof. repeat split; reflexivity. Qed.

Example is_bjorn_wide_ex :
  Discovery._is_bjorn_hostname ("bjorn" +:+ String "194" (String "160" "")) = true
  ∧ Discovery._is_bjorn_hostname
      (String "226" (String "128" (String "131" "bjorn-01"))) = true
  ∧ Discovery._is_bjorn_hostname ("bjorn" +:+ String "194" (String "133" "")) = true
  ∧ Discovery._is_bjorn_hostname ("bjorn" +:+ String "226" (String "132" (String "170" "")))
    = false.
Proof. repeat split; vm_compute; reflexivity. Qed.

Example is_bjorn_ex :
  Discovery._is_bjorn_hostname "Bjorn" = true
  ∧ Discovery._is_bjorn_hostname "bjorn-01" = true
  ∧ Discovery._is_bjorn_hostname "bjorn_usb.local." = true
  ∧ Discovery._is_bjorn_hostname "bjornx.home" = true
  ∧ Discovery._is_bjorn_hostname "bjornx" = false
  ∧ Discovery._is_bjorn_hostname "raspberrypi" = false.
Proof. repeat split; reflexivity. Qed.

Example step_search_ex :
  SSH.step_search "Step 3 of 8: Installing" = Some ("3", "8")
  ∧ SSH.step_search ">> STEP  12   OF 100" = Some ("12", "100")
  ∧ SSH.step_search "Step3 of 8" = None
  ∧ SSH.step_search "Step 3 of" = None.
Proof. repeat split; reflexivity. Qed.

Example decode_ex :
  SSH.decode_ignore ("St" +:+ String "255" "ep") = "Step"
  ∧ SSH.decode_ignore ("a" +:+ String "195" (String "169" "b"))
    = "a" +:+ String "195" (String "169" "b")
  ∧ SSH.decode_ignore ("a" +:+ String "195" "b") = "ab".
Proof. repeat split; reflexivity. Qed.

(** The scenario of the two interfaces: the same host seen on the LAN and
    then on the USB subnet keeps its number. *)
Example two_interfaces_ex :
  let s0 := Discovery.init true true (Discovery._build_ignored_ips None [] []) in
  Discovery.trace
    [Discovery.OpSight (Discovery.Sighting "bjorn-01.local" "10.0.0.5" None None 100 true);
     Discovery.OpSight (Discovery.Sighting "bjorn-01.local" "172.20.2.7" None None 101 false);
     Discovery.OpSight (Discovery.Sighting "bjorn-01.local" "10.0.0.5" None None 102 true)]
    s0
  = [DeviceFound "Bjorn 1 (LAN)" "10.0.0.5" true;
     DeviceFound "Bjorn 1 (USB)" "172.20.2.7" false].
Proof. vm_compute. reflexivity. Qed.

(** * Facts about the string primitives *)

Section pystr_facts.
Import PyStr.

Lemma rev_app_rev_app (s a b : string) :
  String.rev_app (String.rev_app s a) b = String.rev_app a (s +:+ b).
Proof.
  revert a; induction s as [|c s IH]; intros a; simpl; [done|].
  by rewrite IH.
Qed.

Lemma app_cons (c : ascii) (s t : string) : String c s +:+ t = String c (s +:+ t).
Proof. reflexivity. Qed.

Lemma app_empty_r (s : string) : s +:+ "" = s.
Proof. induction s as [|c s IH]; [done|]. by rewrite app_cons, IH. Qed.

Lemma rev_rev_app (s acc : string) :
  String.rev (String.rev_app s acc) = String.rev_app acc s.
Proof. unfold String.rev. by rewrite rev_app_rev_app, app_empty_r. Qed.

Lemma rev_involutive (s : string) : String.rev (String.rev s) = s.
Proof. unfold String.rev at 2. by rewrite rev_rev_app. Qed.

Lemma startswith_spec (s p : string) :
  startswith s p = true ↔ ∃ t, s = p +:+ t.
Proof.
  revert s; induction p as [|a p IH]; intros s; simpl.
  - split; [intros _; by exists s|done].
  - destruct s as [|b s].
    + split; [done|]. by intros [t Ht].
    + destruct (Ascii.eqb_spec a b) as [->|Hne].
      * rewrite IH. split; intros [t Ht]; exists t; rewrite ?app_cons in *; congruence.
      * split; [done|]. intros [t Ht]. rewrite app_cons in Ht. congruence.
Qed.

Lemma digit_val_not_space (c : ascii) (d : N) :
  digit_val c = Some d → is_space c = false.
Proof.
  destruct c as [[] [] [] [] [] [] [] []]; vm_compute; intros; done.
Qed.

Lemma digit_val_not_sign (c : ascii) (d : N) :
  digit_val c = Some d → c ≠ "+"%char ∧ c ≠ "-"%char.
Proof.
  destruct c as [[] [] [] [] [] [] [] []]; vm_compute; intros; done.
Qed.

Lemma digit_val_pretty_char (d : N) :
  (d < 10)%N → digit_val (pretty_N_char d) = Some d.
Proof.
  intros Hd.
  assert (d = 0 ∨ d = 1 ∨ d = 2 ∨ d = 3 ∨ d = 4 ∨ d = 5 ∨ d = 6 ∨ d = 7
          ∨ d = 8 ∨ d = 9)%N as Hcases by lia.
  destruct_or!; subst; reflexivity.
Qed.

(** Printing then reading a number: the digits [pretty_N_go] puts in front of
    [s] shift the accumulator by as many places. *)
Lemma digits_go_pretty (x acc : N) (s : string) :
  ∃ k : N, digits_go acc (pretty_N_go x s) = digits_go (acc * 10 ^ k + x) s.
Proof.
  revert acc s. induction (N.lt_wf_0 x) as [x _ IH]; intros acc s.
  destruct (decide (x = 0)%N) as [->|Hx].
  - exists 0%N. rewrite pretty_N_go_0. f_equal. lia.
  - rewrite pretty_N_go_step by lia.
    destruct (IH (x `div` 10)%N) with (acc := acc)
      (s := String (pretty_N_char (x `mod` 10)) s) as [k Hk].
    { apply N.div_lt; lia. }
    exists (k + 1)%N. rewrite Hk. cbn [digits_go].
    rewrite digit_val_pretty_char by (apply N.mod_lt; lia).
    f_equal. rewrite N.pow_add_r, N.pow_1_r.
    pose proof (N.div_mod x 10 ltac:(lia)). lia.
Qed.

Lemma pretty_N_go_head (x : N) (s : string) :
  (0 < x)%N →
  ∃ c r d, pretty_N_go x s = String c r ∧ digit_val c = Some d.
Proof.
  revert s. induction (N.lt_wf_0 x) as [x _ IH]; intros s Hx.
  rewrite pretty_N_go_step by done.
  destruct (decide (x `div` 10 = 0)%N) as [H0|H0].
  - rewrite H0, pretty_N_go_0. eexists _, _, _. split; [reflexivity|].
    apply digit_val_pretty_char, N.mod_lt. lia.
  - apply IH; [apply N.div_lt; lia | by apply N.neq_0_lt_0].
Qed.

(** No blank starts with a character of the ASCII range that is not itself
    a blank: the encodings of the others start with a byte above it. *)
Lemma blank_width_ascii (c : ascii) (r : string) :
  is_space c = false → (N_of_ascii c < 128)%N → blank_width (String c r) = 0.
Proof.
  destruct c as [[] [] [] [] [] [] [] []]; vm_compute; intros; done.
Qed.

Lemma blank_width_space (c : ascii) (r : string) :
  is_space c = true → blank_width (String c r) = 1.
Proof. intros H. unfold blank_width. by rewrite H. Qed.

Lemma blank_width_digit (c : ascii) (d : N) (r : string) :
  digit_val c = Some d → blank_width (String c r) = 0.
Proof.
  destruct c as [[] [] [] [] [] [] [] []]; vm_compute; intros; done.
Qed.

Lemma pretty_N_go_no_space (x : N) (s : string) :
  no_space s → no_space (pretty_N_go x s).
Proof.
  revert s. induction (N.lt_wf_0 x) as [x _ IH]; intros s Hs.
  destruct (decide (x = 0)%N) as [->|Hx]; [by rewrite pretty_N_go_0|].
  rewrite pretty_N_go_step by lia. apply IH; [apply N.div_lt; lia|].
  split; [|done].
  eapply blank_width_digit, digit_val_pretty_char, N.mod_lt. lia.
Qed.

Lemma split_go_plain (c : ascii) (r : string) (cur : option string) :
  blank_width (String c r) = 0 →
  split_go 0 cur (String c r) = split_go 0 (Some (String c (default "" cur))) r.
Proof. intros H. cbn [split_go]. by rewrite H. Qed.

Lemma split_go_space (c : ascii) (r : string) (cur : option string) :
  is_space c = true →
  split_go 0 cur (String c r) = option_list (String.rev <$> cur) ++ split_go 0 None r.
Proof. intros H. cbn [split_go]. by rewrite (blank_width_space c r H). Qed.

Lemma split_go_no_space (s acc : string) :
  no_space s → split_go 0 (Some acc) s = [String.rev_app acc s].
Proof.
  revert acc; induction s as [|c s IH]; intros acc Hs.
  - done.
  - destruct Hs as [Hc Hs]. rewrite split_go_plain by done. simpl. by rewrite IH.
Qed.

(** The decimal form of a positive number is one blank-free token that [int]
    reads back. *)
Lemma pretty_pos_token (p : positive) :
  ∃ c r, pretty (Z.pos p) = String c r
         ∧ no_space (String c r) ∧ int_of_str (String c r) = Some (Z.pos p).
Proof.
  unfold pretty, pretty_Z, pretty, pretty_positive, pretty, pretty_N.
  rewrite decide_False by done.
  destruct (pretty_N_go_head (N.pos p) "") as (c & r & d & Hcr & Hd); [lia|].
  pose proof (pretty_N_go_no_space (N.pos p) "" I) as Hns.
  destruct (digits_go_pretty (N.pos p) 0 "") as [k Hk].
  rewrite Hcr in *.
  exists c, r. split; [done|]. split; [done|].
  destruct (digit_val_not_sign c d Hd) as [Hplus Hminus].
  assert (unsigned_of_str (String c r) = Some (N.pos p)) as Hu.
  { cbn [unsigned_of_str]. rewrite Hd. cbn [digits_go] in Hk.
    rewrite Hd in Hk. replace (10 * 0 + d)%N with d in Hk by lia.
    rewrite Hk. cbn [digits_go]. f_equal; lia. }
  unfold int_of_str.
  destruct c as [[] [] [] [] [] [] [] []]; try done; try (by rewrite Hu).
Qed.

End pystr_facts.

(** * Facts about the alias manager *)

Section alias_facts.
Import Alias.

Lemma lower_app (a b : string) :
  PyStr.lower (a +:+ b) = PyStr.lower a +:+ PyStr.lower b.
Proof. induction a as [|c a IH]; [done|]. rewrite app_cons. simpl. by rewrite IH. Qed.

Lemma split_bjorn_token (c : ascii) (r : string) :
  PyStr.no_space (String c r) →
  PyStr.last_token ("Bjorn " +:+ String c r) = Some (String c r).
Proof.
  intros Hr. unfold PyStr.last_token, PyStr.split.
  rewrite !app_cons. change ("" +:+ String c r) with (String c r).
  rewrite !split_go_plain by (by apply blank_width_ascii).
  rewrite split_go_space by done.
  destruct Hr as [Hc Hr]. rewrite split_go_plain by done.
  by rewrite split_go_no_space.
Qed.

(** A freshly formatted alias occupies the number it was formatted from. *)
Lemma alias_number_bjorn (n : Z) :
  (1 ≤ n)%Z → alias_number (bjorn n) = Some n.
Proof.
  intros Hn. destruct n as [|p|p]; [lia| |lia]. unfold bjorn.
  destruct (pretty_pos_token p) as (c & r & Hcr & Hr & Hint).
  rewrite Hcr. unfold alias_number.
  rewrite lower_app. change (PyStr.lower "Bjorn ") with "bjorn ".
  rewrite (proj2 (startswith_spec _ _)) by eauto.
  by rewrite split_bjorn_token.
Qed.

Lemma bjorn_inj (i j : Z) : bjorn i = bjorn j → i = j.
Proof.
  unfold bjorn. intros H. apply (inj (String.app "Bjorn ")) in H.
  by apply (inj pretty) in H.
Qed.

Lemma elem_of_used_numbers (m : gmap string string) (k : Z) :
  k ∈ used_numbers m ↔
  ∃ key alias, m !! key = Some alias ∧ alias_number alias = Some k.
Proof.
  unfold used_numbers. rewrite elem_of_list_to_set, list_elem_of_omap. split.
  - intros (alias & Hin & Hnum). apply list_elem_of_fmap in Hin as ([key a] & -> & Hin).
    apply elem_of_map_to_list in Hin. eauto.
  - intros (key & alias & Hm & Hnum). exists alias. split; [|done].
    apply list_elem_of_fmap. exists (key, alias). split; [done|].
    by apply elem_of_map_to_list.
Qed.

(** The search stops on the least number from [n] on that is not in [used],
    provided the fuel covers the members of [used] from [n] on. *)
Lemma first_free_spec (fuel : nat) (used : gset Z) (n : Z) :
  (size (filter (λ k, n ≤ k)%Z used) ≤ fuel)%nat →
  (first_free fuel used n ∉ used)
  ∧ (n ≤ first_free fuel used n)%Z
  ∧ ∀ k, (n ≤ k < first_free fuel used n)%Z → k ∈ used.
Proof.
  revert n. induction fuel as [|fuel IH]; intros n Hsize; simpl.
  - destruct (decide (n ∈ used)) as [Hin|Hout]; [|repeat split; [done|lia|lia]].
    assert (n ∈ filter (λ k, (n ≤ k)%Z) used) as Hf by (apply elem_of_filter; split; [lia|done]).
    assert (filter (λ k, (n ≤ k)%Z) used = ∅) as Hempty by (apply leibniz_equiv, size_empty_inv; lia).
    rewrite Hempty in Hf. set_solver.
  - destruct (decide (n ∈ used)) as [Hin|Hout]; [|repeat split; [done|lia|lia]].
    destruct (IH (n + 1)%Z) as (H1 & H2 & H3).
    { assert ((filter (λ k, n + 1 ≤ k)%Z used) ⊂ (filter (λ k, n ≤ k)%Z used)) as Hsub.
      { split.
        - intros k. rewrite !elem_of_filter. intros [??]. split; [lia|done].
        - intros Hsub. specialize (Hsub n). rewrite !elem_of_filter in Hsub.
          destruct Hsub; [split; [lia|done] | lia]. }
      apply subset_size in Hsub. lia. }
    repeat split; [done|lia|].
    intros k Hk. destruct (decide (k = n)) as [->|Hne]; [done|]. apply H3. lia.
Qed.

Lemma next_index_spec (m : gmap string string) :
  (1 ≤ _next_index m)%Z
  ∧ (_next_index m ∉ used_numbers m)
  ∧ ∀ k, (1 ≤ k < _next_index m)%Z → k ∈ used_numbers m.
Proof.
  unfold _next_index.
  destruct (first_free_spec (size (used_numbers m)) (used_numbers m) 1) as (H1 & H2 & H3).
  { apply subseteq_size. intros k. rewrite elem_of_filter. tauto. }
  done.
Qed.

Lemma alias_for_known (key alias : string) (m : gmap string string) :
  m !! key = Some alias → alias_for key m = (alias, m).
Proof. intros H. unfold alias_for. by rewrite H. Qed.

Lemma alias_for_new (key : string) (m : gmap string string) :
  m !! key = None →
  alias_for key m = (bjorn (_next_index m), <[key := bjorn (_next_index m)]> m).
Proof. intros H. unfold alias_for. by rewrite H. Qed.

(** The new alias is held by no key yet. *)
Lemma next_alias_unbound (m : gmap string string) (key : string) :
  m !! key ≠ Some (bjorn (_next_index m)).
Proof.
  intros Hm. destruct (next_index_spec m) as (H1 & H2 & _).
  apply H2, elem_of_used_numbers. exists key, (bjorn (_next_index m)).
  split; [done|]. by apply alias_number_bjorn.
Qed.

Lemma alias_for_injective (key : string) (m : gmap string string) :
  injective_aliases m → injective_aliases (alias_for key m).2.
Proof.
  intros Hinj. destruct (m !! key) as [alias|] eqn:Hkey.
  - by rewrite (alias_for_known _ _ _ Hkey).
  - rewrite (alias_for_new _ _ Hkey). simpl. intros k1 k2 a.
    rewrite !lookup_insert. repeat case_decide; subst; try done.
    + intros [= <-] H2. by destruct (next_alias_unbound m k2).
    + intros H1 [= <-]. by destruct (next_alias_unbound m k1).
    + apply Hinj.
Qed.

Lemma alias_for_stable (key k : string) (alias : string) (m : gmap string string) :
  m !! k = Some alias → (alias_for key m).2 !! k = Some alias.
Proof.
  intros Hk. destruct (m !! key) as [a|] eqn:Hkey.
  - by rewrite (alias_for_known _ _ _ Hkey).
  - rewrite (alias_for_new _ _ Hkey). simpl.
    rewrite lookup_insert_ne; [done|congruence].
Qed.

Lemma alias_for_bound (key : string) (m : gmap string string) :
  (alias_for key m).2 !! key = Some (alias_for key m).1.
Proof.
  destruct (m !! key) as [a|] eqn:Hkey.
  - by rewrite (alias_for_known _ _ _ Hkey).
  - rewrite (alias_for_new _ _ Hkey). simpl. by rewrite lookup_insert_eq.
Qed.

Lemma used_numbers_insert (key : string) (n : Z) (m : gmap string string) :
  m !! key = None → (1 ≤ n)%Z →
  ∀ k, k ∈ used_numbers (<[key := bjorn n]> m) ↔ k = n ∨ k ∈ used_numbers m.
Proof.
  intros Hkey Hn k. rewrite !elem_of_used_numbers. split.
  - intros (k' & a & Hl & Hnum). rewrite lookup_insert in Hl. case_decide.
    + injection Hl as <-. rewrite alias_number_bjorn in Hnum by done. left. congruence.
    + right. eauto.
  - intros [->|(k' & a & Hl & Hnum)].
    + exists key, (bjorn n). rewrite lookup_insert_eq. by rewrite alias_number_bjorn.
    + exists k', a. rewrite lookup_insert_ne; [done|congruence].
Qed.

(** Allocation for distinct unknown keys when the numbers in use are
    [1 .. i]: the next numbers, in order. *)
Lemma alias_for_all_fresh (keys : list string) (m : gmap string string) (i : nat) :
  NoDup keys →
  (∀ k, k ∈ keys → m !! k = None) →
  (∀ j, j ∈ used_numbers m ↔ (1 ≤ j ≤ Z.of_nat i)%Z) →
  (alias_for_all keys m).1 = (λ j : nat, bjorn (Z.of_nat j)) <$> seq (S i) (length keys).
Proof.
  revert m i. induction keys as [|k ks IH]; intros m i Hnd Hnew Hused; [done|].
  apply NoDup_cons in Hnd as [Hk Hnd]. cbn [alias_for_all length seq fmap list_fmap].
  assert (m !! k = None) as Hmk by (apply Hnew; left).
  assert (_next_index m = Z.of_nat (S i)) as Hnext.
  { destruct (next_index_spec m) as (H1 & H2 & H3).
    rewrite Hused in H2.
    destruct (decide (_next_index m ≤ Z.of_nat (S i))%Z) as [Hle|Hgt]; [lia|].
    specialize (H3 (Z.of_nat (S i)) ltac:(lia)). apply Hused in H3. lia. }
  rewrite (alias_for_new _ _ Hmk), Hnext.
  specialize (IH (<[k := bjorn (Z.of_nat (S i))]> m) (S i) Hnd).
  destruct (alias_for_all ks _) as [as_ m2]. simpl in *. f_equal. apply IH.
  - intros k' Hk'. rewrite lookup_insert_ne; [|by intros ->]. apply Hnew. by right.
  - intros j. rewrite used_numbers_insert; [|done|lia]. rewrite Hused. lia.
Qed.

End alias_facts.


(** * The alias manager: claims C10 and C8 *)

Lemma alias_number_occupies (alias : string) (k : Z) :
  Alias.alias_number alias = Some k ↔ Alias.occupies alias k.
Proof.
  unfold Alias.alias_number, Alias.occupies.
  destruct (PyStr.startswith _ _); [|by split; [|intros [? _]]].
  destruct (PyStr.last_token alias) as [token|]; simpl.
  - split; [eauto|]. by intros [_ (t & [= <-] & Ht)].
  - split; [done|]. by intros [_ (t & [=] & _)].
Qed.

Lemma taken_used_numbers (m : gmap string string) (k : Z) :
  Alias.taken m k ↔ k ∈ Alias.used_numbers m.
Proof.
  rewrite elem_of_used_numbers. unfold Alias.taken.
  split; intros (key & alias & Hm & H); exists key, alias;
    (split; [done|]); by apply alias_number_occupies.
Qed.

(** On a map of strings the two models of the alias manager agree. *)
Lemma used_of_strings (aliases : list string) (used : gset Z) :
  Loaded.used_of (Loaded.JString <$> aliases) used
  = Loaded.Ok (used ∪ list_to_set (omap Alias.alias_number aliases)).
Proof.
  revert used. induction aliases as [|alias rest IH]; intros used; simpl.
  - f_equal. set_solver.
  - rewrite IH. f_equal. destruct (Alias.alias_number alias); simpl; set_solver.
Qed.

Lemma loaded_next_index_strings (m : gmap string string) :
  Loaded._next_index (Loaded.JString <$> m) = Loaded.Ok (Alias._next_index m).
Proof.
  unfold Loaded._next_index, Alias._next_index, Alias.used_numbers.
  rewrite map_to_list_fmap.
  assert (∀ l : list (string * string),
            (prod_map id Loaded.JString <$> l).*2 = Loaded.JString <$> l.*2) as ->.
  { intros l. induction l as [|[k a] l IH]; [done|]. simpl. by f_equal. }
  rewrite used_of_strings. by rewrite (left_id_L ∅ (∪)).
Qed.

Lemma loaded_alias_for_strings (device_id : string) (m : gmap string string) :
  Loaded.alias_for device_id (Loaded.JString <$> m)
  = Loaded.Ok (Loaded.JString (Alias.alias_for device_id m).1,
               Loaded.JString <$> (Alias.alias_for device_id m).2).
Proof.
  unfold Loaded.alias_for, Alias.alias_for.
  rewrite lookup_fmap, loaded_next_index_strings.
  destruct (m !! device_id) as [alias|]; simpl; [done|].
  by rewrite fmap_insert.
Qed.

(** A value that is no string stops the loop of [_next_index], wherever it
    stands among the values. *)
Lemma used_of_raises (aliases : list Loaded.jvalue) (used : gset Z) :
  (∃ v, v ∈ aliases ∧ Loaded.is_string v = false) →
  Loaded.used_of aliases used = Loaded.AttributeError.
Proof.
  intros (v & Hv & Hs). revert used.
  induction aliases as [|a rest IH]; intros used; [by apply elem_of_nil in Hv|].
  apply elem_of_cons in Hv as [<-|Hv].
  - by destruct v.
  - destruct a; simpl; try done. by apply IH.
Qed.

Lemma loaded_alias_for_raises (device_id key : string) (v : Loaded.jvalue)
    (m : gmap string Loaded.jvalue) :
  m !! key = Some v → Loaded.is_string v = false → m !! device_id = None →
  Loaded.alias_for device_id m = Loaded.AttributeError.
Proof.
  intros Hk Hv Hid. unfold Loaded.alias_for, Loaded._next_index. rewrite Hid.
  rewrite used_of_raises; [done|].
  exists v. split; [|done].
  apply list_elem_of_fmap. exists (key, v). split; [done|].
  by apply elem_of_map_to_list.
Qed.

(** C10 (defect of the code).  A persistence file that holds a value which
    is no string, such as the object with the one entry "printer": 5, is
    loaded as it is, and the first allocation for an unknown id raises
    [AttributeError]: [alias.lower()] is called outside the [try] that
    guards the reading of the number.  The same happens when the value
    stands beside well-formed aliases.  Malformed aliases that are strings
    are passed over as the claim says. *)
Theorem C10_non_string_alias_raises :
  Loaded.alias_for "bjorn-01"
    (Loaded._load (Loaded.Object {[ "printer" := Loaded.JNumber "5" ]}))
  = Loaded.AttributeError
  ∧ Loaded.alias_for "bjorn-01"
      (Loaded._load (Loaded.Object
         (<["a" := Loaded.JString "Bjorn 1"]> {[ "b" := Loaded.JNull ]})))
    = Loaded.AttributeError
  ∧ Loaded.alias_for "e"
      (Loaded._load (Loaded.Object
         (<["a" := Loaded.JString "Device 3"]> (<["b" := Loaded.JString "bjorn x"]>
           (<["c" := Loaded.JString "Bjorn 1"]> {[ "d" := Loaded.JString "BJORN  2" ]})))))
    = Loaded.Ok
        (Loaded.JString "Bjorn 3",
         <["e" := Loaded.JString "Bjorn 3"]>
           (<["a" := Loaded.JString "Device 3"]> (<["b" := Loaded.JString "bjorn x"]>
             (<["c" := Loaded.JString "Bjorn 1"]> {[ "d" := Loaded.JString "BJORN  2" ]})))).
Proof. repeat split; vm_compute; reflexivity. Qed.

(** A map as a damaged persistence file may give it: two malformed aliases,
    and the numbers 1 and 2 carried by well-formed ones. *)
Example next_index_malformed_ex :
  let m : gmap string string :=
    <["a" := "Device 3"]> (<["b" := "bjorn x"]>
      (<["c" := "Bjorn 1"]> (<["d" := "BJORN  2"]> ∅))) in
  Alias.alias_for "e" m = ("Bjorn 3", <["e" := "Bjorn 3"]> m).
Proof. vm_compute. reflexivity. Qed.

Lemma injective_aliases_empty : Alias.injective_aliases ∅.
Proof. intros k1 k2 alias H. by rewrite lookup_empty in H. Qed.

(** C8. A sequence of [alias_for] calls keeps the alias map injective
    and never rebinds a key: starting from a map in which no alias is shared,
    no two keys ever hold the same alias, and every binding present stays as it
    is. *)
Theorem C8_alias_map_injective (keys : list string) (m : gmap string string) :
  Alias.injective_aliases m →
  Alias.injective_aliases (Alias.alias_for_all keys m).2
  ∧ (∀ k alias, m !! k = Some alias →
       (Alias.alias_for_all keys m).2 !! k = Some alias).
Proof.
  revert m. induction keys as [|key keys IH]; intros m Hinj; [done|].
  cbn [Alias.alias_for_all].
  pose proof (alias_for_injective key m Hinj) as Hinj1.
  pose proof (λ k alias, alias_for_stable key k alias m) as Hst.
  destruct (Alias.alias_for key m) as [a m1]. simpl in *.
  destruct (IH m1 Hinj1) as [Hinj2 Hst2].
  destruct (Alias.alias_for_all keys m1) as [as_ m2]. simpl in *.
  split; [done|]. intros k alias Hk. by apply Hst2, Hst.
Qed.

Lemma C8_alias_map_injective_witness :
  Alias.injective_aliases ∅
  ∧ Alias.injective_aliases
      (Alias.alias_for_all ["bjorn-a"; "10.0.0.7"; "bjorn-a"] ∅).2.
Proof.
  split; [exact injective_aliases_empty|].
  exact (proj1 (C8_alias_map_injective ["bjorn-a"; "10.0.0.7"; "bjorn-a"] ∅
                  injective_aliases_empty)).
Defined.

(** * The host-name check: claim C9 *)

Section hostname_facts.
Import PyStr Discovery.

Lemma app_empty_l (s : string) : "" +:+ s = s.
Proof. reflexivity. Qed.

Lemma app_assoc_str (a b c : string) : (a +:+ b) +:+ c = a +:+ (b +:+ c).
Proof. induction a as [|x a IH]; [done|]. by rewrite !app_cons, IH. Qed.

Lemma rev_app_append (s acc : string) : String.rev_app s acc = String.rev s +:+ acc.
Proof.
  revert acc. induction s as [|c s IH]; intros acc; [done|].
  unfold String.rev. simpl. rewrite (IH (String c acc)), (IH (String c "")).
  by rewrite app_assoc_str.
Qed.

Lemma rev_append (a b : string) : String.rev (a +:+ b) = String.rev b +:+ String.rev a.
Proof.
  induction a as [|c a IH].
  - by rewrite app_empty_r.
  - rewrite app_cons. unfold String.rev at 1 3. simpl.
    rewrite !rev_app_append, IH. by rewrite app_assoc_str.
Qed.

Lemma endswith_spec (s p : string) :
  endswith s p = true ↔ ∃ t, s = t +:+ p.
Proof.
  unfold endswith. rewrite startswith_spec. split.
  - intros [u Hu]. exists (String.rev u).
    rewrite <-(rev_involutive s), Hu, rev_append. by rewrite rev_involutive.
  - intros [t ->]. exists (String.rev t). apply rev_append.
Qed.

(** A name that starts with "bjorn" and ends with a dotted suffix has both
    parts side by side: the suffix starts with a dot, which "bjorn" lacks. *)
Lemma bjorn_prefix_suffix (s suffix : string) :
  startswith s "bjorn" = true → endswith s (String "." suffix) = true →
  ∃ t, s = "bjorn" +:+ t +:+ String "." suffix.
Proof.
  rewrite startswith_spec, endswith_spec. intros [r ->] [t Ht].
  destruct t as [|c1 [|c2 [|c3 [|c4 [|c5 t]]]]];
    rewrite ?app_cons, ?app_empty_l in Ht; try (exfalso; congruence).
  exists t. rewrite !app_cons, !app_empty_l. congruence.
Qed.

#[local] Opaque startswith endswith.

(** C9 (amended). The check accepts exactly the names whose canonical
    form (the blanks of [str.strip] removed at both ends, lower case,
    trailing dots removed) is "bjorn", or starts with "bjorn-" or "bjorn_",
    or starts with "bjorn" and ends with ".local" or ".home". *)
Theorem C9_is_bjorn_hostname_accepts (host : string) :
  _is_bjorn_hostname host = true ↔ host ≠ "" ∧ bjorn_name (canon host).
Proof.
  unfold _is_bjorn_hostname, bjorn_name.
  destruct host as [|c0 host0]; [split; [done|by intros [? _]]|].
  set (s := canon (String c0 host0)). clearbody s.
  split.
  - intros H. split; [done|].
    destruct (bool_decide (s = "bjorn.local")) eqn:E1.
    { apply bool_decide_eq_true in E1 as ->. right; right; right; left. by exists "". }
    destruct (bool_decide (s = "bjorn.home")) eqn:E2.
    { apply bool_decide_eq_true in E2 as ->. do 4 right. by exists "". }
    simpl in H.
    destruct (startswith s "bjorn") eqn:Hp; simpl in H.
    + destruct (endswith s ".local") eqn:Hl.
      { right; right; right; left. by apply bjorn_prefix_suffix. }
      destruct (endswith s ".home") eqn:Hh.
      { do 4 right. by apply bjorn_prefix_suffix. }
      simpl in H. apply orb_true_iff in H as [H|H].
      * apply orb_true_iff in H as [H|H].
        -- left. by apply bool_decide_eq_true in H.
        -- right; left. by apply startswith_spec.
      * right; right; left. by apply startswith_spec.
    + apply orb_true_iff in H as [H|H].
      * apply orb_true_iff in H as [H|H].
        -- left. by apply bool_decide_eq_true in H.
        -- apply startswith_spec in H as [t ->]. done.
      * apply startswith_spec in H as [t ->]. done.
  - intros [_ H].
    destruct (bool_decide (s = "bjorn.local") || bool_decide (s = "bjorn.home")); [done|].
    destruct H as [->|[[t ->]|[[t ->]|[[t ->]|[t ->]]]]].
    + done.
    + assert (endswith ("bjorn-" +:+ t) ".local" || endswith ("bjorn-" +:+ t) ".home"
              = true ∨ endswith ("bjorn-" +:+ t) ".local" || endswith ("bjorn-" +:+ t) ".home" = false)
        as [->| ->] by (destruct (_ || _); auto); done.
    + assert (endswith ("bjorn_" +:+ t) ".local" || endswith ("bjorn_" +:+ t) ".home"
              = true ∨ endswith ("bjorn_" +:+ t) ".local" || endswith ("bjorn_" +:+ t) ".home" = false)
        as [->| ->] by (destruct (_ || _); auto); done.
    + assert (endswith ("bjorn" +:+ t +:+ ".local") ".local" = true) as ->.
      { apply endswith_spec. exists ("bjorn" +:+ t). by rewrite app_assoc_str. }
      done.
    + assert (endswith ("bjorn" +:+ t +:+ ".home") ".home" = true) as ->.
      { apply endswith_spec. exists ("bjorn" +:+ t). by rewrite app_assoc_str. }
      by rewrite orb_true_r.
Qed.

#[local] Transparent startswith endswith.

(** C9, as stated, fails: a name with the device name at its end is
    rejected, and in strict mode the sighting leaves no trace. *)
Lemma C9_counterexample :
  _is_bjorn_hostname "dev-bjorn" = false
  ∧ _emit_device (Sighting "dev-bjorn" "10.0.0.9" None None 0 true)
                 (init true true ∅)
    = ({| api_callback := true; strict_bjorn_only := true;
          _seen_ips := {["10.0.0.9"]}; alias_mgr := ∅; _registry := ∅;
          _stale_timeout := 90; _ignored_ips := ∅ |}, []).
Proof. split; [reflexivity|]. vm_compute. reflexivity. Qed.

End hostname_facts.

(** * Facts about the sighting pipeline and the sweeper *)

Section discovery_facts.
Import Discovery.

Lemma emit_device_dropped (s : state) (sg : sighting) :
  sighting_key s sg = None →
  (_emit_device sg s).2 = []
  ∧ _registry (_emit_device sg s).1 = _registry s
  ∧ alias_mgr (_emit_device sg s).1 = alias_mgr s.
Proof.
  unfold sighting_key, _emit_device.
  destruct (_is_ignored_ip s (sg_ip sg)); [done|].
  destruct (strict_bjorn_only s && negb _); done.
Qed.

Lemma emit_device_accepted (s : state) (sg : sighting) (key : string) :
  sighting_key s sg = Some key →
  _emit_device sg s =
    ({| api_callback := api_callback s; strict_bjorn_only := strict_bjorn_only s;
        _seen_ips := _seen_ips s ∪ {[sg_ip sg]};
        alias_mgr := (Alias.alias_for key (alias_mgr s)).2;
        _registry :=
          <[key := match _registry s !! key with
                   | Some r => Rec (rec_alias r) (rec_ips r ∪ {[sg_ip sg]}) (sg_now sg)
                   | None => Rec (Alias.alias_for key (alias_mgr s)).1 {[sg_ip sg]} (sg_now sg)
                   end]> (_registry s);
        _stale_timeout := _stale_timeout s; _ignored_ips := _ignored_ips s |},
     match _registry s !! key with
     | Some r => if decide (sg_ip sg ∈ rec_ips r) then [] else found_event s sg key
     | None => found_event s sg key
     end).
Proof.
  unfold sighting_key, _emit_device, found_event.
  destruct (_is_ignored_ip s (sg_ip sg)); [done|].
  destruct (strict_bjorn_only s && negb _); [done|].
  intros [= <-].
  destruct (Alias.alias_for _ (alias_mgr s)) as [base_alias aliases]. simpl.
  destruct (_registry s !! _) as [r|]; simpl.
  - destruct (decide (sg_ip sg ∈ rec_ips r)) as [Hin|Hout].
    + rewrite (bool_decide_eq_false_2 (sg_ip sg ∉ rec_ips r)) by tauto. simpl.
      by assert (rec_ips r ∪ {[sg_ip sg]} = rec_ips r) as -> by set_solver.
    + by rewrite (bool_decide_eq_true_2 (sg_ip sg ∉ rec_ips r)).
  - rewrite bool_decide_eq_true_2 by set_solver. simpl.
    by assert (∅ ∪ {[sg_ip sg]} = ({[sg_ip sg]} : gset string)) as -> by set_solver.
Qed.

Lemma step_config (o : op) (s : state) :
  api_callback (step o s).1 = api_callback s
  ∧ strict_bjorn_only (step o s).1 = strict_bjorn_only s
  ∧ _stale_timeout (step o s).1 = _stale_timeout s
  ∧ _ignored_ips (step o s).1 = _ignored_ips s.
Proof.
  destruct o as [sg|now|up n| |msg lvl]; simpl; try done.
  - destruct (sighting_key s sg) as [key|] eqn:Hk.
    + by rewrite (emit_device_accepted _ _ _ Hk).
    + unfold sighting_key in Hk. unfold _emit_device.
      destruct (_is_ignored_ip s (sg_ip sg)); [done|].
      by destruct (strict_bjorn_only s && negb _).
  - unfold sweep. by destruct (sweep_scan _ _ _).
Qed.

Lemma sighting_key_step (o : op) (s : state) (sg : sighting) :
  sighting_key (step o s).1 sg = sighting_key s sg.
Proof.
  destruct (step_config o s) as (_ & Hs & _ & Hi).
  unfold sighting_key, _is_ignored_ip. by rewrite Hs, Hi.
Qed.

(** A sighting never takes an entry off the record. *)
Lemma known_emit_device (s : state) (sg : sighting) (key ip : string) :
  known s key ip → known (_emit_device sg s).1 key ip.
Proof.
  intros (r & Hr & Hip).
  destruct (sighting_key s sg) as [k|] eqn:Hk.
  - rewrite (emit_device_accepted _ _ _ Hk). unfold known. simpl.
    destruct (decide (k = key)) as [->|Hne].
    + rewrite lookup_insert_eq, Hr. eexists. split; [done|]. simpl. set_solver.
    + rewrite lookup_insert_ne by done. eauto.
  - destruct (emit_device_dropped _ _ Hk) as (_ & Hreg & _).
    exists r. by rewrite Hreg.
Qed.

(** An accepted sighting is on record afterwards. *)
Lemma emit_device_known (s : state) (sg : sighting) (key : string) :
  sighting_key s sg = Some key → known (_emit_device sg s).1 key (sg_ip sg).
Proof.
  intros Hk. rewrite (emit_device_accepted _ _ _ Hk). unfold known. simpl.
  rewrite lookup_insert_eq. eexists. split; [done|].
  destruct (_registry s !! key); simpl; set_solver.
Qed.

(** A sighting already on record: no event, and the time stamp moves. *)
Lemma emit_device_repeat (s : state) (sg : sighting) (key : string) :
  sighting_key s sg = Some key → known s key (sg_ip sg) →
  (_emit_device sg s).2 = []
  ∧ ∃ r, _registry (_emit_device sg s).1 !! key = Some r
         ∧ rec_last_seen r = sg_now sg.
Proof.
  intros Hk (r & Hr & Hip). rewrite (emit_device_accepted _ _ _ Hk). simpl.
  rewrite Hr, decide_True by done. split; [done|].
  rewrite lookup_insert_eq. eauto.
Qed.

(** A sighting not on record yet raises the event. *)
Lemma emit_device_first (s : state) (sg : sighting) (key : string) :
  sighting_key s sg = Some key → ¬ known s key (sg_ip sg) →
  (_emit_device sg s).2 = found_event s sg key.
Proof.
  intros Hk Hnew. rewrite (emit_device_accepted _ _ _ Hk). simpl.
  destruct (_registry s !! key) as [r|] eqn:Hr; [|done].
  destruct (decide (sg_ip sg ∈ rec_ips r)); [|done].
  destruct Hnew. by exists r.
Qed.

Lemma run_sightings_suppressed (sgs : list sighting) (s : state) (j : nat)
    (sg : sighting) (key : string) :
  known s key (sg_ip sg) → sgs !! j = Some sg → sighting_key s sg = Some key →
  (run (OpSight <$> sgs) s).2 !! j = Some [].
Proof.
  revert s j. induction sgs as [|sg0 sgs IH]; intros s j Hknown Hj Hk; [done|].
  cbn [fmap list_fmap run].
  pose proof (known_emit_device s sg0 _ _ Hknown) as Hknown1.
  pose proof (sighting_key_step (OpSight sg0) s sg) as Hkey1.
  cbn [step] in *.
  destruct j as [|j].
  - injection Hj as ->. destruct (emit_device_repeat s sg key Hk Hknown) as [Hev _].
    destruct (_emit_device sg s) as [s1 evs]. simpl in *.
    destruct (run _ s1). simpl. by rewrite Hev.
  - destruct (_emit_device sg0 s) as [s1 evs]. simpl in *.
    specialize (IH s1 j Hknown1 Hj). rewrite Hkey1 in IH. specialize (IH Hk).
    by destruct (run _ s1).
Qed.

(** C3. An accepted sighting raises [device_found] exactly when its
    (key, address) pair is not on record, that is when the device is new or
    the address is new for it; a sighting whose pair is on record raises
    nothing and moves [last_seen] to its time.  So among the sightings of one
    run that share key and address, every one after the first is silent. *)
Theorem C3_repeated_sighting_silent (s : state) (sgs : list sighting)
    (i j : nat) (sgi sgj : sighting) (key : string) :
  i < j → sgs !! i = Some sgi → sgs !! j = Some sgj →
  sighting_key s sgi = Some key → sighting_key s sgj = Some key →
  sg_ip sgi = sg_ip sgj →
  (run (OpSight <$> sgs) s).2 !! j = Some []
  ∧ (∀ s' : state, known s' key (sg_ip sgj) → sighting_key s' sgj = Some key →
       (_emit_device sgj s').2 = []
       ∧ ∃ r, _registry (_emit_device sgj s').1 !! key = Some r
              ∧ rec_last_seen r = sg_now sgj)
  ∧ (∀ s' : state, ¬ known s' key (sg_ip sgj) → sighting_key s' sgj = Some key →
       (_emit_device sgj s').2 = found_event s' sgj key).
Proof.
  intros Hij Hi Hj Hki Hkj Hip.
  split; [|split; [intros s' ??; by apply emit_device_repeat
                  |intros s' ??; by apply emit_device_first]].
  revert s i j Hij Hi Hj Hki Hkj.
  induction sgs as [|sg0 sgs IH]; intros s i j Hij Hi Hj Hki Hkj; [done|].
  destruct j as [|j]; [lia|].
  cbn [fmap list_fmap run].
  pose proof (sighting_key_step (OpSight sg0) s) as Hkey1. cbn [step] in *.
  destruct i as [|i].
  - injection Hi as ->.
    pose proof (emit_device_known s sgi key Hki) as Hknown. rewrite Hip in Hknown.
    pose proof (run_sightings_suppressed sgs (_emit_device sgi s).1 j sgj key Hknown Hj) as Hs.
    rewrite Hkey1 in Hs. specialize (Hs Hkj).
    destruct (_emit_device sgi s) as [s1 evs]. simpl in *. by destruct (run _ s1).
  - specialize (IH (_emit_device sg0 s).1 i j ltac:(lia) Hi Hj).
    rewrite !Hkey1 in IH. specialize (IH Hki Hkj).
    destruct (_emit_device sg0 s) as [s1 evs]. simpl in *. by destruct (run _ s1).
Qed.

Lemma C3_repeated_sighting_silent_witness :
  (run (OpSight <$> [Sighting "bjorn-01.local" "10.0.0.5" None None 100 true;
                     Sighting "bjorn-01.local" "10.0.0.5" None None 130 true])
       (init true true ∅)).2 !! 1 = Some [].
Proof.
  refine (proj1 (C3_repeated_sighting_silent (init true true ∅)
    [Sighting "bjorn-01.local" "10.0.0.5" None None 100%Z true;
     Sighting "bjorn-01.local" "10.0.0.5" None None 130%Z true]
    0 1 _ _ "bjorn-01" _ _ _ _ _ _)); (lia || reflexivity).
Defined.

(** ** The sweeper *)

Lemma sweep_scan_gone (now timeout : Z) (items : list (string * rec)) :
  (sweep_scan now timeout items).1 = flat_map (gone_of now timeout) items.
Proof.
  induction items as [|[k r] items IH]; [done|]. simpl. unfold gone_of at 1. simpl.
  destruct (sweep_scan now timeout items) as [gone del]. simpl in *.
  destruct (is_stale now timeout r); simpl; by rewrite IH.
Qed.

Lemma sweep_scan_delete (now timeout : Z) (items : list (string * rec)) (key : string) :
  key ∈ (sweep_scan now timeout items).2
  ↔ ∃ r, (key, r) ∈ items ∧ is_stale now timeout r = true.
Proof.
  induction items as [|[k r] items IH]; simpl.
  - split; [by intros ?%elem_of_nil|]. by intros (r & ?%elem_of_nil & _).
  - destruct (sweep_scan now timeout items) as [gone del]. simpl in *.
    destruct (is_stale now timeout r) eqn:Hst; simpl.
    + rewrite elem_of_cons, IH. split.
      * intros [->|(r' & Hin & Hs)]; [exists r; split; [left|done] |].
        exists r'. split; [by right|done].
      * intros (r' & Hin & Hs). apply elem_of_cons in Hin as [[= -> ->]|Hin]; [by left|].
        right. eauto.
    + rewrite IH. split.
      * intros (r' & Hin & Hs). exists r'. split; [by right|done].
      * intros (r' & Hin & Hs). apply elem_of_cons in Hin as [[= -> ->]|Hin]; [congruence|].
        eauto.
Qed.

Lemma sweep_scan_quiet (now timeout : Z) (items : list (string * rec)) :
  Forall (λ p, is_stale now timeout p.2 = false) items →
  sweep_scan now timeout items = ([], []).
Proof.
  induction 1 as [|[k r] items Hr _ IH]; [done|]. simpl in *. by rewrite IH, Hr.
Qed.

Lemma pop_all_lookup (to_delete : list string) (reg : gmap string rec) (key : string) :
  pop_all to_delete reg !! key = if decide (key ∈ to_delete) then None else reg !! key.
Proof.
  unfold pop_all. revert reg. induction to_delete as [|k l IH]; intros reg; cbn [foldl].
  - by rewrite decide_False by apply not_elem_of_nil.
  - rewrite IH. destruct (decide (key ∈ l)) as [Hin|Hout].
    + by rewrite decide_True by (by right).
    + destruct (decide (key = k)) as [->|Hne].
      * rewrite decide_True by left. apply lookup_delete_eq.
      * rewrite decide_False by (intros [?|?]%elem_of_cons; done).
        by apply lookup_delete_ne.
Qed.

(** The registry after a pass: the stale records are gone, the others stay. *)
Lemma sweep_registry (now : Z) (s : state) (key : string) :
  _registry (sweep now s).1 !! key =
    match _registry s !! key with
    | Some r => if is_stale now (_stale_timeout s) r then None else Some r
    | None => None
    end.
Proof.
  unfold sweep.
  pose proof (sweep_scan_delete now (_stale_timeout s) (map_to_list (_registry s)) key) as Hdel.
  destruct (sweep_scan _ _ _) as [gone del]. simpl in *.
  rewrite pop_all_lookup.
  destruct (decide (key ∈ del)) as [Hin|Hout].
  - apply Hdel in Hin as (r & Hin & Hst). apply elem_of_map_to_list in Hin.
    by rewrite Hin, Hst.
  - destruct (_registry s !! key) as [r|] eqn:Hr; [|done].
    destruct (is_stale now (_stale_timeout s) r) eqn:Hst; [|done].
    destruct Hout. apply Hdel. exists r. split; [|done]. by apply elem_of_map_to_list.
Qed.

Lemma sweep_fields (now : Z) (s : state) :
  api_callback (sweep now s).1 = api_callback s
  ∧ strict_bjorn_only (sweep now s).1 = strict_bjorn_only s
  ∧ _seen_ips (sweep now s).1 = _seen_ips s
  ∧ alias_mgr (sweep now s).1 = alias_mgr s
  ∧ _stale_timeout (sweep now s).1 = _stale_timeout s
  ∧ _ignored_ips (sweep now s).1 = _ignored_ips s.
Proof. unfold sweep. by destruct (sweep_scan _ _ _). Qed.

Lemma sweep_events (now : Z) (s : state) :
  (sweep now s).2 = flat_map (λ p, notify s (DeviceGone p.2)) (sweep_gone now s).
Proof. unfold sweep, sweep_gone. by destruct (sweep_scan _ _ _). Qed.

Lemma filter_key_block (key k : string) (ips : list string) :
  filter (λ p : string * string, p.1 = key) ((λ ip, (k, ip)) <$> ips)
  = if decide (k = key) then (λ ip, (k, ip)) <$> ips else [].
Proof.
  induction ips as [|ip ips IH]; [by destruct (decide _)|].
  cbn [fmap list_fmap]. rewrite filter_cons. simpl. rewrite IH.
  by destruct (decide (k = key)).
Qed.

(** The pairs of one key among those a pass raises: the block of its record
    when it is stale, nothing otherwise. *)
Lemma gone_filter_key (now timeout : Z) (items : list (string * rec)) (key : string) :
  NoDup items.*1 →
  filter (λ p : string * string, p.1 = key) (flat_map (gone_of now timeout) items)
  = match list_find (λ p : string * rec, p.1 = key) items with
    | Some (_, item) => gone_of now timeout item
    | None => []
    end.
Proof.
  induction items as [|[k r] items IH]; intros Hnd; [done|].
  cbn [fmap list_fmap] in Hnd. apply NoDup_cons in Hnd as [Hk Hnd].
  cbn [flat_map list_find]. rewrite filter_app, IH by done.
  unfold gone_of at 1. simpl.
  destruct (decide (k = key)) as [->|Hne].
  - assert (list_find (λ p : string * rec, p.1 = key) items = None) as ->.
    { apply list_find_None, Forall_forall. intros [k' r'] Hin Heq. simpl in *. subst.
      apply Hk, list_elem_of_fmap. by exists (key, r'). }
    rewrite app_nil_r. unfold gone_of. simpl.
    destruct (is_stale now timeout r); [|done].
    by rewrite filter_key_block, decide_True.
  - destruct (is_stale now timeout r).
    + rewrite filter_key_block, decide_False by done. simpl.
      by destruct (list_find _ items) as [[? ?]|].
    + simpl. by destruct (list_find _ items) as [[? ?]|].
Qed.

Lemma list_find_map_to_list (reg : gmap string rec) (key : string) :
  snd <$> list_find (λ p : string * rec, p.1 = key) (map_to_list reg)
  = (λ r, (key, r)) <$> reg !! key.
Proof.
  destruct (list_find _ _) as [[i [k r]]|] eqn:Hf; simpl.
  - apply list_find_Some in Hf as (Hi & Hk & _). simpl in Hk. subst.
    apply list_elem_of_lookup_2, elem_of_map_to_list in Hi. by rewrite Hi.
  - destruct (reg !! key) as [r|] eqn:Hr; [|done].
    apply elem_of_map_to_list in Hr.
    eapply list_find_None, Forall_forall in Hf; [|done]. done.
Qed.

Lemma sweep_gone_key (now : Z) (s : state) (key : string) :
  filter (λ p : string * string, p.1 = key) (sweep_gone now s)
  = match _registry s !! key with
    | Some r => gone_of now (_stale_timeout s) (key, r)
    | None => []
    end.
Proof.
  unfold sweep_gone. rewrite sweep_scan_gone, gone_filter_key
    by apply NoDup_fst_map_to_list.
  pose proof (list_find_map_to_list (_registry s) key) as Hf.
  destruct (list_find _ _) as [[i item]|]; destruct (_registry s !! key);
    simpl in *; congruence.
Qed.

(** C4. A record that is stale when the sweeper passes raises
    [device_gone] once for each of its addresses and for nothing else, and
    leaves the registry; later passes raise nothing for its key, and a second
    pass at the same time changes nothing and raises nothing at all. *)
Theorem C4_sweep_evicts_once (s : state) (now : Z) (key : string) (r : rec) :
  _registry s !! key = Some r →
  is_stale now (_stale_timeout s) r = true →
  filter (λ p : string * string, p.1 = key) (sweep_gone now s)
    = (λ ip, (key, ip)) <$> elements (rec_ips r)
  ∧ NoDup (elements (rec_ips r))
  ∧ (api_callback s = true →
       (sweep now s).2 = (λ p, DeviceGone p.2) <$> sweep_gone now s)
  ∧ _registry (sweep now s).1 !! key = None
  ∧ (∀ now', filter (λ p : string * string, p.1 = key)
                    (sweep_gone now' (sweep now s).1) = [])
  ∧ sweep now (sweep now s).1 = ((sweep now s).1, []).
Proof.
  intros Hr Hst.
  assert (_registry (sweep now s).1 !! key = None) as Hgone
    by (by rewrite sweep_registry, Hr, Hst).
  split; [|split; [|split; [|split; [|split]]]].
  - rewrite sweep_gone_key, Hr. unfold gone_of. simpl. by rewrite Hst.
  - apply NoDup_elements.
  - intros Hcb. rewrite sweep_events. unfold notify. rewrite Hcb.
    induction (sweep_gone now s) as [|p l IH]; [done|]. simpl. by rewrite IH.
  - done.
  - intros now'. by rewrite sweep_gone_key, Hgone.
  - destruct (sweep_fields now s) as (H1 & H2 & H3 & H4 & H5 & H6).
    unfold sweep at 1. rewrite sweep_scan_quiet.
    + simpl. by destruct (sweep now s).1.
    + rewrite H5. apply Forall_forall. intros [k r'] Hin. simpl.
      apply elem_of_map_to_list in Hin. rewrite sweep_registry in Hin.
      destruct (_registry s !! k) as [r0|]; [|done].
      destruct (is_stale now (_stale_timeout s) r0) eqn:Hs0; [done|]. congruence.
Qed.

Lemma C4_sweep_evicts_once_witness :
  (sweep 100 (run [OpSight (Sighting "bjorn-01" "10.0.0.5" None None 0 true);
                   OpSight (Sighting "bjorn-01" "172.20.2.7" None None 5 true)]
                  (init true true ∅)).1).2
  = [DeviceGone "172.20.2.7"; DeviceGone "10.0.0.5"]
  ∧ _registry
      (sweep 100 (run [OpSight (Sighting "bjorn-01" "10.0.0.5" None None 0 true);
                       OpSight (Sighting "bjorn-01" "172.20.2.7" None None 5 true)]
                      (init true true ∅)).1).1 !! "bjorn-01" = None.
Proof.
  set (s := (run _ _).1).
  assert (_registry s !! "bjorn-01"
          = Some (Rec "Bjorn 1" {["10.0.0.5"; "172.20.2.7"]} 5)) as Hr
    by (vm_compute; reflexivity).
  destruct (C4_sweep_evicts_once s 100 "bjorn-01" _ Hr eq_refl)
    as (_ & _ & Hev & Hgone & _).
  split; [|exact Hgone].
  rewrite Hev by reflexivity. vm_compute. reflexivity.
Defined.

(** ** The ignore list *)

Lemma emit_device_ignored (s : state) (sg : sighting) :
  sg_ip sg ∈ _ignored_ips s → _emit_device sg s = (s, []).
Proof.
  intros Hin. unfold _emit_device, _is_ignored_ip. by rewrite bool_decide_eq_true_2.
Qed.

Lemma emit_device_seen (s : state) (sg : sighting) :
  _seen_ips (_emit_device sg s).1
  = if _is_ignored_ip s (sg_ip sg) then _seen_ips s else _seen_ips s ∪ {[sg_ip sg]}.
Proof.
  unfold _emit_device. destruct (_is_ignored_ip s (sg_ip sg)); [done|].
  destruct (strict_bjorn_only s && negb _); [done|].
  by destruct (Alias.alias_for _ _).
Qed.

Lemma sweep_gone_elem (now : Z) (s : state) (p : string * string) :
  p ∈ sweep_gone now s → known s p.1 p.2.
Proof.
  unfold sweep_gone. rewrite sweep_scan_gone, list_elem_of_In, in_flat_map.
  intros ([k r] & Hin%list_elem_of_In%elem_of_map_to_list & Hp%list_elem_of_In).
  unfold gone_of in Hp. simpl in Hp. destruct (is_stale _ _ _); [|by apply elem_of_nil in Hp].
  apply list_elem_of_fmap in Hp as (ip & -> & Hip). apply elem_of_elements in Hip.
  by exists r.
Qed.

Lemma notify_ip (s : state) (e e' : event) :
  e' ∈ notify s e → e' = e.
Proof.
  unfold notify. destruct (api_callback s); [|by intros ?%elem_of_nil].
  by intros ->%list_elem_of_singleton.
Qed.

(** One step keeps the state clean and raises no event about an ignored
    address. *)
Lemma step_clean (o : op) (s : state) :
  clean s →
  clean (step o s).1
  ∧ ∀ e ip, e ∈ (step o s).2 → event_ip e = Some ip → ip ∉ _ignored_ips s.
Proof.
  intros [Hseen Hreg].
  destruct o as [sg|now|up n| |msg lvl]; cbn [step fst snd].
  - destruct (decide (sg_ip sg ∈ _ignored_ips s)) as [Hig|Hok].
    { rewrite (emit_device_ignored _ _ Hig). simpl. split; [done|].
      by intros e ip ?%elem_of_nil. }
    assert (_is_ignored_ip s (sg_ip sg) = false) as Hf
      by (by apply bool_decide_eq_false_2).
    pose proof (emit_device_seen s sg) as Hs. rewrite Hf in Hs.
    destruct (step_config (OpSight sg) s) as (_ & _ & _ & Hi). cbn [step] in Hi.
    destruct (sighting_key s sg) as [key|] eqn:Hk.
    + split.
      * split.
        -- intros ip Hip. rewrite Hi in Hip. rewrite Hs.
           intros [?| ->%elem_of_singleton]%elem_of_union; [by eapply Hseen|done].
        -- intros k r ip. rewrite Hi, (emit_device_accepted _ _ _ Hk). simpl.
           rewrite lookup_insert. case_decide; [|apply Hreg].
           subst. intros [= <-].
           destruct (_registry s !! k) as [r0|] eqn:Hr0; simpl.
           ++ intros [?| ->%elem_of_singleton]%elem_of_union; [by eapply Hreg|done].
           ++ by intros ->%elem_of_singleton.
      * intros e ip. rewrite (emit_device_accepted _ _ _ Hk). simpl.
        assert (e ∈ found_event s sg key → event_ip e = Some ip → ip ∉ _ignored_ips s)
          as Hfound.
        { intros ->%notify_ip [= <-]. done. }
        destruct (_registry s !! key) as [r0|]; [|done].
        destruct (decide _); [by intros ?%elem_of_nil|done].
    + destruct (emit_device_dropped _ _ Hk) as (Hev & Hr & _).
      split.
      * split.
        -- intros ip Hip. rewrite Hi in Hip. rewrite Hs.
           intros [?| ->%elem_of_singleton]%elem_of_union; [by eapply Hseen|done].
        -- intros k r ip. rewrite Hi, Hr. apply Hreg.
      * rewrite Hev. by intros e ip ?%elem_of_nil.
  - destruct (sweep_fields now s) as (_ & _ & H3 & _ & _ & H6). split.
    + split.
      * intros ip. rewrite H3, H6. apply Hseen.
      * intros k r ip. rewrite H6, sweep_registry.
        destruct (_registry s !! k) as [r0|] eqn:Hr0; [|done].
        destruct (is_stale _ _ _); [done|]. intros [= <-]. by eapply Hreg.
    + intros e ip. rewrite sweep_events, list_elem_of_In, in_flat_map.
      intros (p & Hp%list_elem_of_In%sweep_gone_elem & ->%list_elem_of_In%notify_ip) [= <-].
      destruct Hp as (r & Hr & Hip). by eapply Hreg.
  - split; [done|]. intros e ip. unfold poll. rewrite list_elem_of_In, in_flat_map.
    intros (a & Ha%list_elem_of_In & ->%list_elem_of_In%notify_ip) [= <-].
    apply list_elem_of_lookup in Ha as [i Hi]. apply lookup_take_Some in Hi as [Hi _].
    apply list_elem_of_lookup_2, elem_of_elements in Hi. intros Hig. by eapply Hseen.
  - split; [|by intros e ip ?%elem_of_nil]. split; simpl.
    + intros ip _. apply not_elem_of_empty.
    + intros k r ip Hl. by rewrite lookup_empty in Hl.
  - split; [done|]. intros e ip ->%notify_ip. done.
Qed.

Lemma run_clean (ops : list op) (s : state) :
  clean s →
  clean (run ops s).1
  ∧ _ignored_ips (run ops s).1 = _ignored_ips s
  ∧ ∀ e ip, e ∈ trace ops s → event_ip e = Some ip → ip ∉ _ignored_ips s.
Proof.
  unfold trace. revert s. induction ops as [|o ops IH]; intros s Hc.
  - simpl. repeat split; try apply Hc. by intros e ip ?%elem_of_nil.
  - cbn [run]. destruct (step_clean o s Hc) as [Hc1 Hev].
    destruct (step_config o s) as (_ & _ & _ & Hi).
    destruct (step o s) as [s1 evs]. simpl in *.
    destruct (IH s1 Hc1) as (Hc2 & Hi2 & Hev2).
    destruct (run ops s1) as [s2 evss]. simpl in *.
    split; [done|]. split; [congruence|].
    intros e ip [?|?]%elem_of_app Hip; [by eapply Hev|].
    rewrite <-Hi. by eapply Hev2.
Qed.

Lemma init_clean (callback strict : bool) (ignored : gset string) :
  clean (init callback strict ignored).
Proof.
  split; simpl.
  - intros ip _. apply not_elem_of_empty.
  - intros k r ip Hl. by rewrite lookup_empty in Hl.
Qed.

Lemma elem_of_build_ignored_ips (default_gw : option string)
    (gw_entries own_addrs : list string) (ip : string) :
  ip ∈ _build_ignored_ips default_gw gw_entries own_addrs
  ↔ default_gw = Some ip ∨ ip ∈ gw_entries ∨ ip ∈ common_router_ips ∨ ip ∈ own_addrs.
Proof.
  unfold _build_ignored_ips. rewrite elem_of_list_to_set, !elem_of_app.
  destruct default_gw as [gw|]; simpl.
  - rewrite list_elem_of_singleton. naive_solver.
  - rewrite elem_of_nil. naive_solver.
Qed.

(** C7. An address on the ignore list (the default gateway, the other
    gateways, the four well-known router addresses, the own addresses) is
    dropped by the sighting pipeline before anything is recorded; whatever
    the threads do afterwards, no [device_found], [device_gone] or
    [webapp_status] event ever carries it, and it is neither in the seen set
    nor in a record of the registry. *)
Theorem C7_ignored_address_silent (ops : list op) (callback strict : bool)
    (ignored : gset string) (ip : string) :
  ip ∈ ignored →
  (∀ e, e ∈ trace ops (init callback strict ignored) → event_ip e ≠ Some ip)
  ∧ (ip ∉ _seen_ips (run ops (init callback strict ignored)).1)
  ∧ (∀ key r, _registry (run ops (init callback strict ignored)).1 !! key = Some r →
       ip ∉ rec_ips r)
  ∧ (∀ s sg, _ignored_ips s = ignored → sg_ip sg = ip → _emit_device sg s = (s, []))
  ∧ (∀ default_gw gw_entries own_addrs,
       ignored = _build_ignored_ips default_gw gw_entries own_addrs →
       default_gw = Some ip ∨ ip ∈ gw_entries ∨ ip ∈ common_router_ips
       ∨ ip ∈ own_addrs).
Proof.
  intros Hig.
  destruct (run_clean ops _ (init_clean callback strict ignored))
    as ([Hseen Hreg] & Hi & Hev).
  split; [|split; [|split; [|split]]].
  - intros e He Hip. by eapply Hev.
  - apply Hseen. by rewrite Hi.
  - intros key r Hr Hin. eapply Hreg; [done..|]. by rewrite Hi.
  - intros s sg <- <-. by apply emit_device_ignored.
  - intros gw entries own ->. by apply elem_of_build_ignored_ips.
Qed.

Lemma C7_ignored_address_silent_witness :
  "192.168.1.20" ∉
    _seen_ips
      (run [OpSight (Sighting "bjorn" "192.168.1.20" None None 0 true);
            OpSight (Sighting "bjorn" "192.168.1.7" None None 1 true);
            OpPoll (λ _, true) 5; OpSweep 200]
           (init true true
              (_build_ignored_ips (Some "192.168.1.1") [] ["192.168.1.20"]))).1.
Proof.
  refine (proj1 (proj2 (C7_ignored_address_silent _ true true _ "192.168.1.20" _))).
  apply elem_of_build_ignored_ips. right; right; right. apply list_elem_of_singleton.
  reflexivity.
Defined.

(** ** Aliases and eviction: claim C5 *)

(** C5 (amended). Allocation is deterministic and collision-free: in a
    fresh alias map, distinct keys receive "Bjorn 1", "Bjorn 2", ... in the
    order of their first sighting.  The sweeper leaves the alias map alone, so
    an evicted device keeps its number: a key seen before gets its old alias
    back, and a new key gets the least positive number that no alias of the
    map carries. *)
Theorem C5_alias_allocation (keys : list string) :
  NoDup keys →
  (Alias.alias_for_all keys ∅).1
    = (λ n : nat, Alias.bjorn (Z.of_nat n)) <$> seq 1 (length keys)
  ∧ (∀ s now, alias_mgr (sweep now s).1 = alias_mgr s)
  ∧ (∀ (m : gmap string string) key alias,
       m !! key = Some alias → Alias.alias_for key m = (alias, m))
  ∧ (∀ (m : gmap string string) key,
       m !! key = None →
       (Alias.alias_for key m).1 = Alias.bjorn (Alias._next_index m)
       ∧ (1 ≤ Alias._next_index m)%Z
       ∧ ¬ Alias.taken m (Alias._next_index m)
       ∧ ∀ k, (1 ≤ k < Alias._next_index m)%Z → Alias.taken m k).
Proof.
  intros Hnd. split; [|split; [|split]].
  - apply alias_for_all_fresh; [done| |].
    + intros k _. apply lookup_empty.
    + intros j. rewrite elem_of_used_numbers. split; [|lia].
      intros (k & a & Hl & _). by rewrite lookup_empty in Hl.
  - intros s now. apply sweep_fields.
  - intros m key alias. apply alias_for_known.
  - intros m key Hnew. rewrite (alias_for_new _ _ Hnew).
    destruct (next_index_spec m) as (H1 & H2 & H3). simpl.
    split; [done|]. split; [done|]. split; [by rewrite taken_used_numbers|].
    intros k Hk. by apply taken_used_numbers, H3.
Qed.

Lemma C5_alias_allocation_witness :
  (Alias.alias_for_all ["bjorn-a"; "10.0.0.7"; "bjorn-c"] ∅).1
  = (λ n : nat, Alias.bjorn (Z.of_nat n)) <$> seq 1 3.
Proof.
  refine (proj1 (C5_alias_allocation ["bjorn-a"; "10.0.0.7"; "bjorn-c"] _)).
  refine (bool_decide_unpack (NoDup ["bjorn-a"; "10.0.0.7"; "bjorn-c"]) _).
  vm_compute. exact I.
Defined.

(** C5, as stated, fails.  Three devices are seen, the holder of
    "Bjorn 2" goes stale and is evicted, a fourth device appears: it is
    named "Bjorn 4", and number 2 stays bound to the evicted key. *)
Lemma C5_counterexample :
  trace [OpSight (Sighting "bjorn-a" "10.0.0.11" None None 50 true);
         OpSight (Sighting "bjorn-b" "10.0.0.12" None None 0 true);
         OpSight (Sighting "bjorn-c" "10.0.0.13" None None 50 true);
         OpSweep 95;
         OpSight (Sighting "bjorn-d" "10.0.0.14" None None 96 true)]
        (init true true ∅)
  = [DeviceFound "Bjorn 1 (LAN)" "10.0.0.11" true;
     DeviceFound "Bjorn 2 (LAN)" "10.0.0.12" true;
     DeviceFound "Bjorn 3 (LAN)" "10.0.0.13" true;
     DeviceGone "10.0.0.12";
     DeviceFound "Bjorn 4 (LAN)" "10.0.0.14" true]
  ∧ _registry
      (run [OpSight (Sighting "bjorn-a" "10.0.0.11" None None 50 true);
            OpSight (Sighting "bjorn-b" "10.0.0.12" None None 0 true);
            OpSight (Sighting "bjorn-c" "10.0.0.13" None None 50 true);
            OpSweep 95]
           (init true true ∅)).1 !! "bjorn-b" = None
  ∧ alias_mgr
      (run [OpSight (Sighting "bjorn-a" "10.0.0.11" None None 50 true);
            OpSight (Sighting "bjorn-b" "10.0.0.12" None None 0 true);
            OpSight (Sighting "bjorn-c" "10.0.0.13" None None 50 true);
            OpSweep 95]
           (init true true ∅)).1 !! "bjorn-b" = Some "Bjorn 2".
Proof. repeat split; vm_compute; reflexivity. Qed.

End discovery_facts.

(** * The installation loop: claims C1 and C2 *)

Section install_facts.
Import SSH.


Lemma progress_events_app (a b : list action) :
  progress_events (a ++ b) = progress_events a ++ progress_events b.
Proof. apply omap_app. Qed.


Lemma progress_events_flat_map {A} (f : A → list action) (g : A → list (Z * Z))
    (l : list A) :
  (∀ x, progress_events (f x) = g x) →
  progress_events (flat_map f l) = flat_map g l.
Proof.
  intros Hf. induction l as [|x l IH]; [done|]. simpl.
  by rewrite progress_events_app, Hf, IH.
Qed.









(** The prompt shown twice, in two chunks: one write. *)
Example password_once_ex :
  (run_install {| host := "10.0.0.5"; port := 22; user := "bjorn";
                  password := Some "pw"; key_path := None; sudo_password := None |}
     false
     [Turn (Some "[sudo] pass") None;
      Turn (Some ("word for bjorn: " +:+ newline +:+ "[sudo] password for bjorn: ")) None;
      Turn (Some "[SUDO] password for bjorn:") None;
      Turn None (Some ([], 0%Z))]).1
  = [Emit (Log "[sudo] pass" "info");
     ChanSend ("pw" +:+ newline);
     Emit (Log "[SUDO] Password sent" "info");
     Emit (Log "word for bjorn: " "info");
     Emit (Log "[sudo] password for bjorn: " "info");
     Emit (Log "[SUDO] password for bjorn:" "info");
     Emit (Log "Installation completed successfully!" "success")].
Proof. vm_compute. reflexivity. Qed.

(** ** Progress events *)

(** C1 (defect of the code).  A marker line that arrives when the exit
    status is already there is read by the drain loop, which logs it and
    raises no progress event: the run reports (3, 8) only.  The [recv_ready]
    branch, given the same chunk, raises the event (4, 8) that the drain
    leaves out. *)
Theorem C1_drain_drops_progress :
  (run_install {| host := "10.0.0.5"; port := 22; user := "bjorn";
                  password := Some "pw"; key_path := None; sudo_password := None |}
     false
     [Turn (Some ("Step 3 of 8: Updating system" +:+ newline)) None;
      Turn None (Some (["Step 4 of 8: Installing packages" +:+ newline], 0%Z))])
  = ([Emit (Log "Step 3 of 8: Updating system" "info");
      Emit (Progress 3 8 "Step 3/8");
      Emit (Log "Step 4 of 8: Installing packages" "info");
      Emit (Log "Installation completed successfully!" "success")],
     Returned true)
  ∧ drain_data ("Step 4 of 8: Installing packages" +:+ newline)
    = [Emit (Log "Step 4 of 8: Installing packages" "info")]
  ∧ handle_data ("Step 4 of 8: Installing packages" +:+ newline)
    = [Emit (Log "Step 4 of 8: Installing packages" "info");
       Emit (Progress 4 8 "Step 4/8")]
  ∧ line_progress "Step 4 of 8: Installing packages" = Some (4, 8)%Z.
Proof. repeat split; vm_compute; reflexivity. Qed.

(** The scenario of the claim, with both lines read by the [recv_ready]
    branch. *)
Example progress_in_order_ex :
  progress_events
    (run_install {| host := "10.0.0.5"; port := 22; user := "bjorn";
                    password := Some "pw"; key_path := None; sudo_password := None |}
       false
       [Turn (Some ("Step 3 of 8: Updating system" +:+ newline)) None;
        Turn None None;
        Turn (Some ("step 4 OF 8: Installing packages" +:+ newline
                    +:+ "done" +:+ newline)) None;
        Turn None (Some ([], 0%Z))]).1
  = [(3, 8); (4, 8)]%Z.
Proof. vm_compute. reflexivity. Qed.

(** Lines are cut chunk by chunk: a marker that the transport delivers in
    two pieces is logged as two lines and raises no event. *)
Example marker_across_chunks_ex :
  (run_install {| host := "10.0.0.5"; port := 22; user := "bjorn";
                  password := Some "pw"; key_path := None; sudo_password := None |}
     false
     [Turn (Some "Step 3 o") None;
      Turn (Some ("f 8: Updating system" +:+ newline)) (Some ([], 0%Z))]).1
  = [Emit (Log "Step 3 o" "info");
     Emit (Log "f 8: Updating system" "info");
     Emit (Log "Installation completed successfully!" "success")].
Proof. vm_compute. reflexivity. Qed.

End install_facts.

(** * Connecting: claim C6 *)

Section connect_facts.
Import SSH.

Example connect_key_ex :
  connect {| expand := id; isfile := λ p, bool_decide (p = "/home/u/.ssh/id_rsa");
             ssh_dir := Ok "/home/u/.ssh";
             connect_with_key := λ _ _, Ok tt;
             connect_with_password := λ _, Raise AuthenticationException "denied";
             has_transport := true; keepalive := Ok tt |}
          {| host := "10.0.0.5"; port := 22; user := "bjorn";
             password := None; key_path := None; sudo_password := None |}
  = ([ClientConnect (Some "/home/u/.ssh/id_rsa") None None;
      Emit (Log "[SSH] Connected via key: id_rsa" "info");
      SetKeepalive 30],
     Ok true).
Proof. vm_compute. reflexivity. Qed.

Example connect_timeout_ex :
  connect {| expand := id; isfile := λ _, false; ssh_dir := Ok "/home/u/.ssh";
             connect_with_key := λ _ _, Ok tt;
             connect_with_password := λ _, Raise OtherException "timed out";
             has_transport := true; keepalive := Ok tt |}
          {| host := "10.0.0.5"; port := 22; user := "bjorn";
             password := Some "pw"; key_path := None; sudo_password := None |}
  = ([ClientConnect None None (Some "pw");
      Emit (Log "[SSH] Connection failed: timed out" "error")],
     Ok false).
Proof. vm_compute. reflexivity. Qed.




Lemma error_logged_app_r (a b : list action) : error_logged b → error_logged (a ++ b).
Proof. intros [m Hm]. exists m. apply elem_of_app. by right. Qed.











(** A key path that is no file and a password the server accepts. *)
Example connect_bad_key_path_ex :
  connect {| expand := id; isfile := λ _, false; ssh_dir := Ok "/home/u/.ssh";
             connect_with_key := λ _ _, Raise SSHException "not a valid key";
             connect_with_password := λ p, if bool_decide (p = "pw") then Ok tt
                                           else Raise AuthenticationException "denied";
             has_transport := true; keepalive := Ok tt |}
          {| host := "10.0.0.5"; port := 22; user := "bjorn";
             password := Some "pw"; key_path := Some "/no/such/key";
             sudo_password := None |}
  = ([ClientConnect None None (Some "pw");
      Emit (Log "[SSH] Connected via password" "info");
      SetKeepalive 30],
     Ok true).
Proof. vm_compute. reflexivity. Qed.

(** A key the server rejects, then the password. *)
Example connect_rejected_key_ex :
  connect {| expand := id; isfile := λ _, true; ssh_dir := Ok "/home/u/.ssh";
             connect_with_key := λ _ _, Raise AuthenticationException "denied";
             connect_with_password := λ _, Ok tt;
             has_transport := true; keepalive := Ok tt |}
          {| host := "10.0.0.5"; port := 22; user := "bjorn";
             password := Some "pw"; key_path := Some "~/.ssh/id_rsa";
             sudo_password := None |}
  = ([ClientConnect (Some "~/.ssh/id_rsa") (Some "pw") None;
      Emit (Log "[SSH] Key auth failed, falling back to password" "warning");
      ClientConnect None None (Some "pw");
      Emit (Log "[SSH] Connected via password" "info");
      SetKeepalive 30],
     Ok true).
Proof. vm_compute. reflexivity. Qed.

End connect_facts.

(** * Further properties of the registry *)

Section registry_invariants.
Import Discovery.

(** Asking twice gives the same alias and changes nothing the second time. *)
Theorem alias_for_idempotent (key : string) (m : gmap string string) :
  Alias.alias_for key (Alias.alias_for key m).2 = Alias.alias_for key m
  ∧ (Alias.alias_for key m).2 !! key = Some (Alias.alias_for key m).1
  ∧ (∀ alias, m !! key = Some alias → Alias.alias_for key m = (alias, m)).
Proof.
  split; [|split; [apply alias_for_bound|intros alias; apply alias_for_known]].
  pose proof (alias_for_bound key m) as Hb.
  destruct (Alias.alias_for key m) as [a m'] eqn:E. simpl in *.
  by apply alias_for_known.
Qed.

Lemma dense_empty : Alias.dense ∅.
Proof.
  split.
  - intros key alias H. by rewrite lookup_empty in H.
  - intros n. rewrite elem_of_used_numbers, map_size_empty. split; [|lia].
    intros (k & a & H & _). by rewrite lookup_empty in H.
Qed.

Lemma dense_next_index (m : gmap string string) :
  Alias.dense m → Alias._next_index m = Z.of_nat (S (size m)).
Proof.
  intros [_ Hused]. destruct (next_index_spec m) as (H1 & H2 & H3).
  rewrite Hused in H2.
  destruct (decide (Alias._next_index m ≤ Z.of_nat (S (size m)))%Z) as [Hle|Hgt]; [lia|].
  specialize (H3 (Z.of_nat (S (size m))) ltac:(lia)). apply Hused in H3. lia.
Qed.

Lemma alias_for_dense (key : string) (m : gmap string string) :
  Alias.dense m → Alias.dense (Alias.alias_for key m).2.
Proof.
  intros Hd. destruct (m !! key) as [alias|] eqn:Hkey.
  - by rewrite (alias_for_known _ _ _ Hkey).
  - rewrite (alias_for_new _ _ Hkey), (dense_next_index m Hd). simpl.
    destruct Hd as [Hform Hused]. split.
    + intros k a. rewrite lookup_insert. case_decide.
      * intros [= <-]. eexists. split; [|done]. lia.
      * apply Hform.
    + intros n. rewrite used_numbers_insert; [|done|lia].
      rewrite Hused, map_size_insert_None by done. lia.
Qed.

Lemma step_alias_mgr (o : op) (s : state) :
  alias_mgr (step o s).1 = alias_mgr s
  ∨ (∃ key, alias_mgr (step o s).1 = (Alias.alias_for key (alias_mgr s)).2)
  ∨ alias_mgr (step o s).1 = ∅.
Proof.
  destruct o as [sg|now|up n| |msg lvl]; cbn [step fst]; auto.
  - destruct (sighting_key s sg) as [key|] eqn:Hk.
    + right; left. exists key. by rewrite (emit_device_accepted _ _ _ Hk).
    + left. by destruct (emit_device_dropped _ _ Hk) as (_ & _ & ?).
  - left. apply sweep_fields.
Qed.

Lemma run_dense (ops : list op) (s : state) :
  Alias.dense (alias_mgr s) → Alias.injective_aliases (alias_mgr s) →
  Alias.dense (alias_mgr (run ops s).1)
  ∧ Alias.injective_aliases (alias_mgr (run ops s).1).
Proof.
  revert s. induction ops as [|o ops IH]; intros s Hd Hi; [done|].
  cbn [run]. pose proof (step_alias_mgr o s) as Hstep.
  destruct (step o s) as [s1 evs]. simpl in *.
  specialize (IH s1). destruct (run ops s1) as [s2 evss]. simpl in *.
  destruct Hstep as [E|[[key E]|E]]; apply IH; rewrite E;
    auto using alias_for_dense, alias_for_injective, dense_empty,
               injective_aliases_empty.
Qed.

(** From a fresh [Discovery] on, after any sequence of sightings, sweeps,
    polls, resets and logs, each taken as a whole, the aliases handed out are
    "Bjorn 1" to "Bjorn N" without gap or repetition, [N] being the number of
    keys the alias manager holds. *)
Theorem aliases_gapless (ops : list op) (callback strict : bool) (ignored : gset string) :
  (∀ key alias,
     alias_mgr (run ops (init callback strict ignored)).1 !! key = Some alias →
     ∃ n, (1 ≤ n ≤ Z.of_nat (size (alias_mgr (run ops (init callback strict ignored)).1)))%Z
          ∧ alias = Alias.bjorn n)
  ∧ (∀ n, (1 ≤ n ≤ Z.of_nat (size (alias_mgr (run ops (init callback strict ignored)).1)))%Z →
       ∃ key, alias_mgr (run ops (init callback strict ignored)).1 !! key
              = Some (Alias.bjorn n))
  ∧ Alias.injective_aliases (alias_mgr (run ops (init callback strict ignored)).1).
Proof.
  destruct (run_dense ops (init callback strict ignored) dense_empty
              injective_aliases_empty) as [[Hform Hused] Hinj].
  set (m := alias_mgr _) in *. split; [|split; [|done]].
  - intros key alias Hm. destruct (Hform key alias Hm) as (n & Hn & ->).
    exists n. split; [|done]. apply Hused, elem_of_used_numbers.
    exists key, (Alias.bjorn n). split; [done|]. by apply alias_number_bjorn.
  - intros n Hn. apply Hused, elem_of_used_numbers in Hn as (key & alias & Hm & Hnum).
    exists key. destruct (Hform key alias Hm) as (n' & Hn' & ->).
    rewrite alias_number_bjorn in Hnum by done. congruence.
Qed.

Lemma step_seen (o : op) (s : state) :
  o ≠ OpReset → _seen_ips s ⊆ _seen_ips (step o s).1.
Proof.
  destruct o as [sg|now|up n| |msg lvl]; intros Ho; cbn [step fst]; try done.
  - rewrite emit_device_seen. destruct (_is_ignored_ip s (sg_ip sg)); set_solver.
  - destruct (sweep_fields now s) as (_ & _ & -> & _). done.
Qed.

Lemma device_key_not_bjorn (host ip : string) (rdns : option string) :
  _is_bjorn_hostname (_device_key host ip rdns) = false → _device_key host ip rdns = ip.
Proof.
  unfold _device_key.
  destruct (_is_bjorn_hostname (_normalize_host _)) eqn:E; [|done]. congruence.
Qed.

Lemma sighting_key_spec (s : state) (sg : sighting) (key : string) :
  sighting_key s sg = Some key →
  (sg_ip sg ∉ _ignored_ips s)
  ∧ key = _device_key (sighting_host sg) (sg_ip sg) (sg_rdns2 sg).
Proof.
  unfold sighting_key, _is_ignored_ip.
  destruct (bool_decide _) eqn:E; [done|]. apply bool_decide_eq_false in E.
  destruct (strict_bjorn_only s && negb _); [done|]. by intros [= <-].
Qed.

Lemma step_sound (o : op) (s : state) : sound s → sound (step o s).1.
Proof.
  intros Hs. destruct o as [sg|now|up n| |msg lvl]; cbn [step fst]; try done.
  - destruct (sighting_key s sg) as [key|] eqn:Hk.
    + destruct (sighting_key_spec _ _ _ Hk) as [_ Hkey].
      rewrite (emit_device_accepted _ _ _ Hk). intros k r. simpl.
      rewrite lookup_insert. case_decide as Hkk.
      * subst k. intros [= <-].
        destruct (_registry s !! key) as [r0|] eqn:Hr0; simpl.
        -- destruct (Hs key r0 Hr0) as (Ha & Hne & Hsub & Hip).
           split; [by apply alias_for_stable|]. split; [set_solver|].
           split; [set_solver|]. intros Hb. rewrite (Hip Hb).
           rewrite Hkey in Hb |- *. rewrite (device_key_not_bjorn _ _ _ Hb). set_solver.
        -- split; [apply alias_for_bound|]. split; [set_solver|].
           split; [set_solver|]. intros Hb.
           rewrite Hkey in Hb |- *. by rewrite (device_key_not_bjorn _ _ _ Hb).
      * intros Hr. destruct (Hs k r Hr) as (Ha & Hne & Hsub & Hip).
        split; [by apply alias_for_stable|]. split; [done|]. split; [set_solver|done].
    + destruct (emit_device_dropped _ _ Hk) as (_ & Hreg & Ham).
      intros k r. rewrite Hreg, Ham. intros Hr.
      destruct (Hs k r Hr) as (Ha & Hne & Hsub & Hip).
      repeat split; try done.
      pose proof (step_seen (OpSight sg) s ltac:(done)) as Hseen. cbn [step] in Hseen.
      set_solver.
  - destruct (sweep_fields now s) as (_ & _ & H3 & H4 & _).
    intros k r. rewrite sweep_registry, H3, H4.
    destruct (_registry s !! k) as [r0|] eqn:Hr0; [|done].
    destruct (is_stale _ _ _); [done|]. intros [= <-]. by apply Hs.
Qed.

Lemma init_sound (callback strict : bool) (ignored : gset string) :
  sound (init callback strict ignored).
Proof. intros k r Hr. simpl in Hr. by rewrite lookup_empty in Hr. Qed.

Lemma run_sound (ops : list op) (s : state) : sound s → sound (run ops s).1.
Proof.
  revert s. induction ops as [|o ops IH]; intros s Hs; [done|].
  cbn [run]. pose proof (step_sound o s Hs) as H1.
  destruct (step o s) as [s1 evs]. simpl in *.
  specialize (IH s1 H1). by destruct (run ops s1).
Qed.

Lemma run_config (ops : list op) (s : state) :
  api_callback (run ops s).1 = api_callback s
  ∧ strict_bjorn_only (run ops s).1 = strict_bjorn_only s
  ∧ _stale_timeout (run ops s).1 = _stale_timeout s
  ∧ _ignored_ips (run ops s).1 = _ignored_ips s.
Proof.
  revert s. induction ops as [|o ops IH]; intros s; [done|].
  cbn [run]. destruct (step_config o s) as (H1 & H2 & H3 & H4).
  destruct (step o s) as [s1 evs]. simpl in *.
  specialize (IH s1). destruct (run ops s1) as [s2 evss]. simpl in *.
  destruct IH as (-> & -> & -> & ->). done.
Qed.

Lemma poll_complete (up : string → bool) (s : state) (ip : string) :
  api_callback s = true → ip ∈ _seen_ips s →
  WebappStatus ip (up ip) ∈ poll up (size (_seen_ips s)) s.
Proof.
  intros Hcb Hip. unfold poll, notify. rewrite Hcb.
  apply list_elem_of_In, in_flat_map. exists ip. split; [|by left].
  apply list_elem_of_In. rewrite take_ge by done. by apply elem_of_elements.
Qed.

(** In a running [Discovery] every record carries the alias that the alias
    manager holds for its key, has at least one address, and all its
    addresses are in the seen set; so a poll cycle that runs to its end
    reports the webapp status of every address of every record. *)
Theorem registry_records_sound (ops : list op) (strict : bool)
    (ignored : gset string) (key : string) (r : rec) :
  _registry (run ops (init true strict ignored)).1 !! key = Some r →
  alias_mgr (run ops (init true strict ignored)).1 !! key = Some (rec_alias r)
  ∧ rec_ips r ≠ ∅
  ∧ rec_ips r ⊆ _seen_ips (run ops (init true strict ignored)).1
  ∧ (∀ up ip, ip ∈ rec_ips r →
       WebappStatus ip (up ip)
       ∈ poll up (size (_seen_ips (run ops (init true strict ignored)).1))
              (run ops (init true strict ignored)).1).
Proof.
  intros Hr.
  destruct (run_sound ops _ (init_sound true strict ignored) key r Hr)
    as (Ha & Hne & Hsub & _).
  split; [done|]. split; [done|]. split; [done|].
  intros up ip Hip. apply poll_complete; [|set_solver].
  by destruct (run_config ops (init true strict ignored)) as (-> & _).
Qed.

Lemma registry_records_sound_witness :
  alias_mgr (run [OpSight (Sighting "bjorn-01" "10.0.0.5" None None 0 true);
                  OpSight (Sighting "" "10.0.0.6" (Some "printer") None 1 true);
                  OpSweep 50]
                 (init true false ∅)).1 !! "10.0.0.6"
  = Some "Bjorn 2".
Proof.
  refine (proj1 (registry_records_sound _ false ∅ "10.0.0.6"
                   (Rec "Bjorn 2" {["10.0.0.6"]} 1) _)).
  vm_compute. reflexivity.
Defined.

(** A record whose key is not a Bjorn name is keyed by its address: the key
    is the one address of the record. *)
Theorem fallback_key_is_address (ops : list op) (callback strict : bool)
    (ignored : gset string) (key : string) (r : rec) :
  _registry (run ops (init callback strict ignored)).1 !! key = Some r →
  _is_bjorn_hostname key = false →
  rec_ips r = {[key]}.
Proof.
  intros Hr. by destruct (run_sound ops _ (init_sound callback strict ignored) key r Hr)
    as (_ & _ & _ & H).
Qed.

Lemma fallback_key_is_address_witness :
  rec_ips (Rec "Bjorn 1" {["10.0.0.6"]} 1) = {["10.0.0.6"]}.
Proof.
  refine (fallback_key_is_address
            [OpSight (Sighting "" "10.0.0.6" (Some "printer") None 1 true)]
            true false ∅ "10.0.0.6" _ _ _); vm_compute; reflexivity.
Defined.


(** In strict mode an address whose host name is not a Bjorn name raises no
    [device_found] and enters no record, yet it is added to the seen set
    (the add comes before the name test), so the webapp poller reports on
    it from then on. *)
Theorem rejected_host_still_polled (s : state) (sg : sighting) :
  strict_bjorn_only s = true →
  sg_ip sg ∉ _ignored_ips s →
  _is_bjorn_hostname (sighting_host sg) = false →
  (_emit_device sg s).2 = []
  ∧ _registry (_emit_device sg s).1 = _registry s
  ∧ alias_mgr (_emit_device sg s).1 = alias_mgr s
  ∧ _seen_ips (_emit_device sg s).1 = _seen_ips s ∪ {[sg_ip sg]}
  ∧ (api_callback s = true →
     ∀ up, WebappStatus (sg_ip sg) (up (sg_ip sg))
           ∈ poll up (size (_seen_ips (_emit_device sg s).1)) (_emit_device sg s).1).
Proof.
  intros Hstrict Hig Hname.
  assert (_is_ignored_ip s (sg_ip sg) = false) as Hf by (by apply bool_decide_eq_false_2).
  assert (sighting_key s sg = None) as Hk
    by (unfold sighting_key; by rewrite Hf, Hstrict, Hname).
  destruct (emit_device_dropped _ _ Hk) as (Hev & Hreg & Ham).
  pose proof (emit_device_seen s sg) as Hseen. rewrite Hf in Hseen.
  repeat split; try done.
  intros Hcb up. apply poll_complete.
  - destruct (step_config (OpSight sg) s) as (H1 & _). cbn [step] in H1. congruence.
  - rewrite Hseen. set_solver.
Qed.

Lemma rejected_host_still_polled_witness :
  WebappStatus "10.0.0.9" true
  ∈ poll (λ _, true)
         (size (_seen_ips (_emit_device (Sighting "printer" "10.0.0.9" None None 0 true)
                                         (init true true ∅)).1))
         (_emit_device (Sighting "printer" "10.0.0.9" None None 0 true)
                       (init true true ∅)).1.
Proof.
  refine (proj2 (proj2 (proj2 (proj2
    (rejected_host_still_polled (init true true ∅)
       (Sighting "printer" "10.0.0.9" None None 0 true) eq_refl _ eq_refl))))
    eq_refl (λ _, true)).
  simpl. apply not_elem_of_empty.
Defined.

(** A sighting keeps its device in the registry for the length of the
    timeout: a sweep that comes no later than [_stale_timeout] after the
    sighting leaves the record as it is and raises no [device_gone] for the
    key. *)
Theorem sighting_survives_sweep (s : state) (sg : sighting) (key : string) (now : Z) :
  sighting_key s sg = Some key →
  (now - sg_now sg ≤ _stale_timeout s)%Z →
  _registry (sweep now (_emit_device sg s).1).1 !! key
    = _registry (_emit_device sg s).1 !! key
  ∧ known (sweep now (_emit_device sg s).1).1 key (sg_ip sg)
  ∧ filter (λ p : string * string, p.1 = key)
           (sweep_gone now (_emit_device sg s).1) = [].
Proof.
  intros Hk Hnow.
  pose proof (emit_device_known s sg key Hk) as (r & Hr & Hip).
  destruct (step_config (OpSight sg) s) as (_ & _ & Ht & _). cbn [step] in Ht.
  assert (rec_last_seen r = sg_now sg) as Hls.
  { rewrite (emit_device_accepted _ _ _ Hk) in Hr. simpl in Hr.
    rewrite lookup_insert_eq in Hr. injection Hr as <-.
    by destruct (_registry s !! key). }
  assert (is_stale now (_stale_timeout (_emit_device sg s).1) r = false) as Hst.
  { unfold is_stale. rewrite Ht, Hls. apply Z.ltb_ge. lia. }
  assert (_registry (sweep now (_emit_device sg s).1).1 !! key = Some r) as Hafter
    by (by rewrite sweep_registry, Hr, Hst).
  split; [congruence|]. split; [by exists r|].
  rewrite sweep_gone_key, Hr. unfold gone_of. simpl. by rewrite Hst.
Qed.

Lemma sighting_survives_sweep_witness :
  known (sweep 190 (_emit_device (Sighting "bjorn-01" "10.0.0.5" None None 100 true)
                                 (init true true ∅)).1).1
        "bjorn-01" "10.0.0.5".
Proof.
  refine (proj1 (proj2 (sighting_survives_sweep (init true true ∅)
    (Sighting "bjorn-01" "10.0.0.5" None None 100 true) "bjorn-01" 190 eq_refl _))).
  simpl. lia.
Defined.

(** A device that was evicted and comes back gets the alias it had: the
    sweep forgets the record, not the alias.  The new record starts with the
    one address of the new sighting, and [device_found] is raised again. *)
Theorem returning_device_keeps_alias (ops : list op) (callback strict : bool)
    (ignored : gset string) (now : Z) (sg : sighting) (key : string) (r : rec) :
  _registry (run ops (init callback strict ignored)).1 !! key = Some r →
  is_stale now 90 r = true →
  sighting_key (init callback strict ignored) sg = Some key →
  (_emit_device sg (sweep now (run ops (init callback strict ignored)).1).1).2
    = (if callback
       then [DeviceFound (rec_alias r +:+ " (" +:+ _ip_tag (sg_ip sg) +:+ ")")
                         (sg_ip sg) (sg_probe sg)]
       else [])
  ∧ _registry (_emit_device sg (sweep now (run ops (init callback strict ignored)).1).1).1
      !! key
    = Some (Rec (rec_alias r) {[sg_ip sg]} (sg_now sg)).
Proof.
  intros Hr Hst Hk.
  set (s := (run ops (init callback strict ignored)).1) in *.
  destruct (run_config ops (init callback strict ignored)) as (Hcb & Hstr & Ht & Hig).
  fold s in Hcb, Hstr, Ht, Hig. simpl in Hcb, Hstr, Ht, Hig.
  destruct (run_sound ops _ (init_sound callback strict ignored) key r Hr)
    as (Ha & _).
  fold s in Ha.
  destruct (sweep_fields now s) as (H1 & H2 & H3 & H4 & H5 & H6).
  assert (_registry (sweep now s).1 !! key = None) as Hgone
    by (by rewrite sweep_registry, Hr, Ht, Hst).
  assert (sighting_key (sweep now s).1 sg = Some key) as Hk'.
  { unfold sighting_key, _is_ignored_ip in *. by rewrite H2, H6, Hstr, Hig. }
  rewrite (emit_device_accepted _ _ _ Hk'). simpl.
  rewrite Hgone, lookup_insert_eq. unfold found_event, notify.
  rewrite H1, H4, Hcb, (alias_for_known _ _ _ Ha). done.
Qed.

Lemma returning_device_keeps_alias_witness :
  (_emit_device (Sighting "bjorn-b" "172.20.2.9" None None 300 false)
     (sweep 200 (run [OpSight (Sighting "bjorn-a" "10.0.0.11" None None 0 true);
                      OpSight (Sighting "bjorn-b" "10.0.0.12" None None 5 true)]
                     (init true true ∅)).1).1).2
  = [DeviceFound "Bjorn 2 (USB)" "172.20.2.9" false].
Proof.
  refine (proj1 (returning_device_keeps_alias
    [OpSight (Sighting "bjorn-a" "10.0.0.11" None None 0 true);
     OpSight (Sighting "bjorn-b" "10.0.0.12" None None 5 true)]
    true true ∅ 200 (Sighting "bjorn-b" "172.20.2.9" None None 300 false)
    "bjorn-b" (Rec "Bjorn 2" {["10.0.0.12"]} 5) _ eq_refl eq_refl)).
  vm_compute. reflexivity.
Defined.

End registry_invariants.

(** * Address tags, host-name case and the mDNS callback *)

Section naming_facts.
Import PyStr Discovery.

Lemma pretty_N_go_digits (x : N) (s : string) :
  all_chars is_digit s → all_chars is_digit (pretty_N_go x s).
Proof.
  revert s. induction (N.lt_wf_0 x) as [x _ IH]; intros s Hs.
  destruct (decide (x = 0)%N) as [->|Hx]; [by rewrite pretty_N_go_0|].
  rewrite pretty_N_go_step by lia. apply IH; [apply N.div_lt; lia|].
  split; [|done]. unfold is_digit.
  by rewrite digit_val_pretty_char by (apply N.mod_lt; lia).
Qed.

Lemma pretty_N_digits (n : N) : all_chars is_digit (pretty n).
Proof.
  unfold pretty, pretty_N. destruct (decide (n = 0)%N); [by split|].
  by apply pretty_N_go_digits.
Qed.

Lemma dot_not_digit : is_digit "." = false.
Proof. reflexivity. Qed.

(** Two texts that start with digits up to a dot agree on the digits and on
    what follows the dot. *)
Lemma digits_dot_inj (u v r r' : string) :
  all_chars is_digit u → all_chars is_digit v →
  u +:+ String "." r = v +:+ String "." r' → u = v ∧ r = r'.
Proof.
  revert v. induction u as [|c u IH]; intros v Hu Hv.
  - destruct v as [|c' v]; rewrite ?app_cons, ?app_empty_l.
    + by intros [= ->].
    + intros [= <- _]. destruct Hv as [Hc _]. by rewrite dot_not_digit in Hc.
  - destruct v as [|c' v]; rewrite ?app_cons, ?app_empty_l.
    + intros [= -> _]. destruct Hu as [Hc _]. by rewrite dot_not_digit in Hc.
    + intros [= -> H]. destruct Hu as [_ Hu], Hv as [_ Hv].
      destruct (IH v Hu Hv H) as [-> ->]. done.
Qed.

Lemma dotted_prefix (a b c d a' b' c' : N) (t : string) :
  dotted a b c d = pretty a' +:+ "." +:+ pretty b' +:+ "." +:+ pretty c' +:+ "." +:+ t
  ↔ a = a' ∧ b = b' ∧ c = c' ∧ t = pretty d.
Proof.
  unfold dotted. split.
  - intros H.
    apply digits_dot_inj in H as [Ha H]; [|apply pretty_N_digits..].
    apply digits_dot_inj in H as [Hb H]; [|apply pretty_N_digits..].
    apply digits_dot_inj in H as [Hc H]; [|apply pretty_N_digits..].
    by apply (inj pretty) in Ha, Hb, Hc.
  - by intros (-> & -> & -> & ->).
Qed.

Lemma startswith_usb (a b c d : N) :
  startswith (dotted a b c d) "172.20.2." = true ↔ (a = 172 ∧ b = 20 ∧ c = 2)%N.
Proof.
  rewrite startswith_spec. split.
  - intros [t Ht].
    change ("172.20.2." +:+ t)
      with (pretty 172%N +:+ "." +:+ pretty 20%N +:+ "." +:+ pretty 2%N +:+ "." +:+ t) in Ht.
    apply dotted_prefix in Ht. tauto.
  - intros (-> & -> & ->). by exists (pretty d).
Qed.

Lemma startswith_bluetooth (a b c d : N) :
  startswith (dotted a b c d) "172.20.1." = true ↔ (a = 172 ∧ b = 20 ∧ c = 1)%N.
Proof.
  rewrite startswith_spec. split.
  - intros [t Ht].
    change ("172.20.1." +:+ t)
      with (pretty 172%N +:+ "." +:+ pretty 20%N +:+ "." +:+ pretty 1%N +:+ "." +:+ t) in Ht.
    apply dotted_prefix in Ht. tauto.
  - intros (-> & -> & ->). by exists (pretty d).
Qed.

(** The tag is exact on dotted addresses: "USB" for 172.20.2.x, "Bluetooth"
    for 172.20.1.x and "LAN" for every other address; a neighbour such as
    172.20.21.5 or 172.20.10.7 is not mistaken for one of the two subnets. *)
Theorem ip_tag_exact (a b c d : N) :
  _ip_tag (dotted a b c d)
  = if decide (a = 172 ∧ b = 20 ∧ c = 2)%N then "USB"
    else if decide (a = 172 ∧ b = 20 ∧ c = 1)%N then "Bluetooth"
    else "LAN".
Proof.
  unfold _ip_tag.
  pose proof (startswith_usb a b c d) as Hu.
  pose proof (startswith_bluetooth a b c d) as Hb.
  destruct (startswith (dotted a b c d) "172.20.2.").
  - by rewrite decide_True by (by apply Hu).
  - rewrite decide_False by (intros H; by apply Hu in H).
    destruct (startswith (dotted a b c d) "172.20.1.").
    + by rewrite decide_True by (by apply Hb).
    + by rewrite decide_False by (intros H; by apply Hb in H).
Qed.

Example ip_tag_ex :
  _ip_tag (dotted 172 20 2 7) = "USB" ∧ _ip_tag (dotted 172 20 21 7) = "LAN"
  ∧ _ip_tag (dotted 172 20 1 254) = "Bluetooth" ∧ dotted 172 20 1 254 = "172.20.1.254".
Proof. repeat split; vm_compute; reflexivity. Qed.


















Lemma lower_empty (s : string) : lower s = "" ↔ s = "".
Proof. by destruct s. Qed.


Lemma lower_length (s : string) : String.length (lower s) = String.length s.
Proof. induction s as [|c s IH]; [done|]. simpl. by rewrite IH. Qed.

#[local] Opaque canon endswith startswith.


#[local] Transparent canon endswith startswith.


End naming_facts.

Section service_facts.
Import Discovery.

Lemma on_service_loop_blocked (server : string) (addresses : list (option sighting))
    (s : state) :
  strict_bjorn_only s = true → _is_bjorn_hostname server = false →
  on_service_loop server addresses s = (s, []).
Proof.
  intros Hs Hb. induction addresses as [|[sg|] rest IH]; [done| |exact IH].
  cbn [on_service_loop]. by rewrite Hs, Hb.
Qed.

Lemma on_service_loop_open (server : string) (addresses : list (option sighting))
    (s : state) :
  strict_bjorn_only s && negb (_is_bjorn_hostname server) = false →
  on_service_loop server addresses s
  = ((run (OpSight <$> (with_label (match server with "" => "bjorn" | _ => server end)
                          <$> omap id addresses)) s).1,
     trace (OpSight <$> (with_label (match server with "" => "bjorn" | _ => server end)
                           <$> omap id addresses)) s).
Proof.
  unfold trace. revert s.
  induction addresses as [|[sg|] rest IH]; intros s Hopen; [done| |by apply IH].
  cbn [on_service_loop omap list_omap fmap list_fmap run option_bind id]. rewrite Hopen.
  cbn [step].
  match goal with |- context [_emit_device ?x s] =>
    destruct (step_config (OpSight x) s) as (_ & Hstrict & _); cbn [step] in Hstrict;
    destruct (_emit_device x s) as [s1 evs] end.
  simpl in Hstrict. rewrite IH by (by rewrite Hstrict).
  by destruct (run _ s1).
Qed.

(** The mDNS callback.  In strict mode a service whose server name (or, for
    want of one, service name) is not a Bjorn name changes nothing at all: not
    even the seen set learns of its addresses.  In every other case the
    callback is the sighting, in order, of each address that [inet_ntoa]
    could print, under the server name as label, or under "bjorn" when the
    service has no name; without strict mode all nameless services therefore
    share the key "bjorn". *)
Theorem on_service_spec (info : service_info) (s : state) :
  (strict_bjorn_only s = true → _is_bjorn_hostname (service_server info) = false →
   _on_service (Some info) s = (s, []))
  ∧ (strict_bjorn_only s && negb (_is_bjorn_hostname (service_server info)) = false →
     _on_service (Some info) s
     = ((run (OpSight <$> (with_label
                (match service_server info with "" => "bjorn" | _ => service_server info end)
                <$> omap id (si_addresses info))) s).1,
        trace (OpSight <$> (with_label
                (match service_server info with "" => "bjorn" | _ => service_server info end)
                <$> omap id (si_addresses info))) s))
  ∧ (strict_bjorn_only s = false →
     ∀ sg, sg_ip sg ∉ _ignored_ips s →
           sighting_key s (with_label "bjorn" sg) = Some "bjorn")
  ∧ _on_service None s = (s, []).
Proof.
  split; [intros; by apply on_service_loop_blocked|].
  split; [intros; by apply on_service_loop_open|].
  split; [|done].
  intros Hs sg Hig. unfold sighting_key, _is_ignored_ip.
  rewrite bool_decide_eq_false_2, Hs by done. reflexivity.
Qed.

(** A printer advertises its SSH service: nothing happens in strict mode. *)
Example on_service_ex :
  _on_service
    (Some (ServiceInfo (Some "printer.local.") (Some "Printer._ssh._tcp.local.")
             [Some (Sighting "" "10.0.0.9" None None 0 true)]))
    (init true true ∅)
  = (init true true ∅, [])
  ∧ (_on_service
       (Some (ServiceInfo None (Some "BJORN-7.local.")
                [None; Some (Sighting "" "10.0.0.7" None None 0 true);
                 Some (Sighting "" "172.20.2.1" None None 0 false)]))
       (init true true ∅)).2
    = [DeviceFound "Bjorn 1 (LAN)" "10.0.0.7" true;
       DeviceFound "Bjorn 1 (USB)" "172.20.2.1" false].
Proof. split; vm_compute; reflexivity. Qed.

End service_facts.

(** * Commands, transfers and service control over an open session *)

Section session_facts.
Import Session.

Ltac session_unfold :=
  unfold restart_bjorn_service, change_epd_type, deploy_bjorn_zip,
    upload_install_scripts, upload_file, _sudo_exec, exec_simple, sftp_open,
    _ensure_connected, try_except, try_finally, log, ask, raise;
  unfold mbind, mret, M_bind, M_ret.

Ltac found_in_list :=
  repeat first [ apply list_elem_of_here | apply list_elem_of_further ].

Ltac error_found := intros _; eexists; found_in_list.

Ltac refute :=
  split; [done|]; intros ?; destruct_and!;
  repeat match goal with H : ∃ _, _ |- _ => destruct H end;
  simplify_eq/=; try done; try congruence.

Lemma restart_cases w cfg st :
  ∃ b, (restart_bjorn_service w cfg st).2 = Ok b
       ∧ (b = true ↔
          _client st = true
          ∧ ∃ out err, exec w restart_line (stdin_of cfg) = Ok (0%Z, out, err))
       ∧ (b = false → error_logged (restart_bjorn_service w cfg st).1)
       ∧ commands (restart_bjorn_service w cfg st).1 `prefix_of` [restart_line].
Proof.
  unfold restart_line, stdin_of. session_unfold.
  destruct (_client st); simpl.
  - destruct (exec w _ _) as [[[rc out] err]|cls msg] eqn:E; simpl.
    + destruct (rc =? 0)%Z eqn:Hrc; simpl.
      * apply Z.eqb_eq in Hrc as ->. exists true. split_and!; try done.
        split; [intros _; split; [done|by eauto]|done].
      * exists false. split_and!; try done; [|error_found].
        split; [done|]. intros [_ (o & e & [= -> _ _])]. done.
    + exists false. split_and!; try done; [|error_found].
      split; [done|]. by intros [_ (o & e & ?)].
  - exists false. split_and!; try done; [|error_found|by apply prefix_nil].
    split; [done|]. by intros [? _].
Qed.

(** [restart_bjorn_service] raises nothing.  It returns [True] exactly when
    the worker has a client and [sudo -S systemctl restart bjorn.service],
    given the password on its standard input, ends with the exit status 0;
    whenever it returns [False] it has logged an error. *)
Theorem restart_service_outcome (w : world) (cfg : SSH.SSHConfig) (st : session) :
  ∃ b, (restart_bjorn_service w cfg st).2 = Ok b
       ∧ (b = true ↔
          _client st = true
          ∧ ∃ out err,
              exec w "sudo -S systemctl restart bjorn.service"
                (Some (SSH.escalation_password cfg +:+ SSH.newline))
              = Ok (0%Z, out, err))
       ∧ (b = false → error_logged (restart_bjorn_service w cfg st).1).
Proof.
  destruct (restart_cases w cfg st) as (b & H1 & H2 & H3 & _).
  exists b. split_and!; try done.
Qed.

Lemma logged_app_r (l1 l2 : list call) :
  error_logged l2 → error_logged (l1 ++ l2).
Proof. intros [m Hm]. exists m. apply elem_of_app. by right. Qed.

Lemma logged_app_l (l1 l2 : list call) :
  error_logged l1 → error_logged (l1 ++ l2).
Proof. intros [m Hm]. exists m. apply elem_of_app. by left. Qed.

Lemma commands_app (l1 l2 : list call) :
  commands (l1 ++ l2) = commands l1 ++ commands l2.
Proof. apply omap_app. Qed.

(** [change_epd_type] seen from its three commands: the edit, the clearing
    of the configuration, the restart. *)
Lemma change_epd_cases w cfg st v :
  ∃ b, (change_epd_type w cfg st v).2 = Ok b
       ∧ (b = true ↔
          _client st = true
          ∧ (∃ out err, exec w (epd_command v) None = Ok (0%Z, out, err))
          ∧ (∃ answer, exec w clear_line (stdin_of cfg) = Ok answer)
          ∧ (∃ out err, exec w restart_line (stdin_of cfg) = Ok (0%Z, out, err)))
       ∧ (b = false → error_logged (change_epd_type w cfg st v).1)
       ∧ commands (change_epd_type w cfg st v).1
           `prefix_of` [epd_command v; clear_line; restart_line]
       ∧ ((¬ ∃ out err, exec w (epd_command v) None = Ok (0%Z, out, err)) →
          commands (change_epd_type w cfg st v).1
          = if _client st then [epd_command v] else []).
Proof.
  destruct (restart_cases w cfg st) as (b & H1 & H2 & H3 & H4).
  unfold change_epd_type.
  destruct (restart_bjorn_service w cfg st) as [rcalls rres]. simpl in H1, H3, H4.
  subst rres.
  unfold clear_line, stdin_of in *. session_unfold.
  destruct (_client st); simpl.
  - destruct (exec w (epd_command v) None) as [[[rc out] err]|cls msg] eqn:E; simpl.
    + destruct (rc =? 0)%Z eqn:Hrc; simpl.
      * apply Z.eqb_eq in Hrc as ->.
        destruct (exec w ("sudo -S " +:+ clear_command) _)
          as [[[rc2 out2] err2]|cls2 msg2] eqn:E2; simpl.
        -- exists b. split_and!; try done.
           ++ rewrite H2. split; [intros [_ ?]; split_and!; by eauto|].
              intros (_ & _ & _ & ?). done.
           ++ intros Hb. repeat apply (logged_app_r [_]). by apply H3.
           ++ do 2 apply prefix_cons. done.
           ++ intros Hn. destruct Hn. by eauto.
        -- exists false. split_and!; try done; [|error_found| |].
           ++ split; [done|]. by intros (_ & _ & [? ?] & _).
           ++ by do 2 apply prefix_cons; apply prefix_nil.
           ++ intros Hn. destruct Hn. by eauto.
      * exists false. split_and!; try done; [|error_found|by apply prefix_cons, prefix_nil].
        split; [done|]. intros (_ & (o & e & [= -> _ _]) & _). done.
    + exists false. split_and!; try done; [|error_found|by apply prefix_cons, prefix_nil].
      split; [done|]. by intros (_ & (o & e & ?) & _).
  - exists false. split_and!; try done; [|error_found|by apply prefix_nil].
    split; [done|]. by intros [? _].
Qed.


(** [change_epd_type] raises nothing.  It returns [True] exactly when the
    worker has a client, the [sed] command ends with the exit status 0, the
    command that clears the configuration files returns (whatever its exit
    status) and the restart of the service ends with the exit status 0;
    whenever it returns [False] it has logged an error. *)
Theorem change_epd_outcome (w : world) (cfg : SSH.SSHConfig) (st : session)
    (epd_version : string) :
  ∃ b, (change_epd_type w cfg st epd_version).2 = Ok b
       ∧ (b = true ↔
          _client st = true
          ∧ (∃ out err, exec w (epd_command epd_version) None = Ok (0%Z, out, err))
          ∧ (∃ answer,
               exec w "sudo -S rm -rf /home/bjorn/Bjorn/config/*.json" (stdin_of cfg)
               = Ok answer)
          ∧ (∃ out err,
               exec w "sudo -S systemctl restart bjorn.service" (stdin_of cfg)
               = Ok (0%Z, out, err)))
       ∧ (b = false → error_logged (change_epd_type w cfg st epd_version).1).
Proof.
  destruct (change_epd_cases w cfg st epd_version) as (b & H1 & H2 & H3 & _).
  exists b. split_and!; try done.
Qed.

(** The commands of [change_epd_type] are, in this order and no other, the
    [sed] command, the clearing of the configuration files and the restart
    of the service; when the [sed] command raises or ends with another exit
    status than 0, it is the only command sent: nothing is cleared and the
    service is not restarted. *)
Theorem failed_edit_stops_change (w : world) (cfg : SSH.SSHConfig) (st : session)
    (epd_version : string) :
  (¬ ∃ out err, exec w (epd_command epd_version) None = Ok (0%Z, out, err)) →
  commands (change_epd_type w cfg st epd_version).1
  = if _client st then [epd_command epd_version] else [].
Proof.
  destruct (change_epd_cases w cfg st epd_version) as (b & _ & _ & _ & _ & H).
  exact H.
Qed.

Lemma failed_edit_stops_change_witness :
  commands
    (change_epd_type
       {| exec := fun command _ =>
            if String.eqb command (epd_command "epd2in13_V3")
            then Ok (2%Z, "", "sed: can't read shared.py: No such file or directory")
            else Ok (0%Z, "", "");
          open_sftp := Ok tt; put := fun _ _ => Ok tt;
          write_file := fun _ _ => Ok tt; mkdir := fun _ => Ok tt;
          close_sftp := Ok tt; listdir := fun _ => Ok [];
          path_join := fun a b => a +:+ "/" +:+ b |}
       (SSH.Build_SSHConfig "10.0.0.5" 22 "bjorn" (Some "bjorn") None None)
       {| _client := true; _connected := true |} "epd2in13_V3").1
  = [epd_command "epd2in13_V3"].
Proof.
  refine (failed_edit_stops_change _ _ {| _client := true; _connected := true |}
            "epd2in13_V3" _).
  vm_compute. intros (out & err & H). discriminate H.
Defined.

Lemma deploy_lines_distinct :
  deploy_cleanup ≠ deploy_chmod ∧ deploy_cleanup ≠ deploy_run
  ∧ deploy_run ≠ deploy_chmod.
Proof. by vm_compute. Qed.

(** One request of [deploy_bjorn_zip], the earliest in the order of the
    program that the goal still holds. *)
Ltac deploy_step w w' cfg zip script :=
  first
    [ match goal with |- context [open_sftp w] =>
        destruct (open_sftp w) as [[]|? ?] eqn:? end
    | match goal with |- context [put w zip remote_zip] =>
        destruct (put w zip remote_zip) as [[]|? ?] eqn:? end
    | match goal with |- context [close_sftp w] =>
        destruct (close_sftp w) as [[]|? ?] eqn:? end
    | match goal with |- context [open_sftp w'] =>
        destruct (open_sftp w') as [[]|? ?] eqn:? end
    | match goal with |- context [write_file w' deploy_tmp script] =>
        destruct (write_file w' deploy_tmp script) as [[]|? ?] eqn:? end
    | match goal with |- context [close_sftp w'] =>
        destruct (close_sftp w') as [[]|? ?] eqn:? end
    | match goal with |- context [exec w' deploy_chmod None] =>
        destruct (exec w' deploy_chmod None) as [[[? ?] ?]|? ?] eqn:? end
    | match goal with |- context [exec w' deploy_run (stdin_of cfg)] =>
        destruct (exec w' deploy_run (stdin_of cfg)) as [[[? ?] ?]|? ?] eqn:? end
    | match goal with |- context [exec w' deploy_cleanup None] =>
        destruct (exec w' deploy_cleanup None) as [[[? ?] ?]|? ?] eqn:? end
    | match goal with |- context [PyStr.strip ?out] =>
        destruct (PyStr.strip out) eqn:? end
    | match goal with |- context [(?rc =? 0)%Z] =>
        destruct (rc =? 0)%Z eqn:? end ];
  simpl.

Ltac absurd_member H :=
  repeat (apply elem_of_cons in H as [H|H]; [done|]); by apply elem_of_nil in H.

Ltac member_iff :=
  match goal with |- _ ∈ _ ↔ _ ∈ _ ∧ ?ran => subst ran end;
  split;
  [ intros Hin; first [ absurd_member Hin | split; [solve [found_in_list] | by eauto] ]
  | intros [Hin Hran];
    first [ absurd_member Hin | by destruct Hran | solve [found_in_list] ] ].

Lemma deploy_cases script w w' cfg st zip (ok ran : Prop) :
  ok = (_client st = true
        ∧ open_sftp w = Ok tt ∧ put w zip remote_zip = Ok tt ∧ close_sftp w = Ok tt
        ∧ open_sftp w' = Ok tt ∧ write_file w' deploy_tmp script = Ok tt
        ∧ close_sftp w' = Ok tt
        ∧ (∃ answer, exec w' deploy_chmod None = Ok answer)
        ∧ (∃ out err, exec w' deploy_run (stdin_of cfg) = Ok (0%Z, out, err))
        ∧ (∃ answer, exec w' deploy_cleanup None = Ok answer)) →
  ran = (∃ answer, exec w' deploy_run (stdin_of cfg) = Ok answer) →
  ∃ b, (deploy_bjorn_zip script w w' cfg st zip).2 = Ok b
       ∧ (b = true ↔ ok)
       ∧ (b = false → error_logged (deploy_bjorn_zip script w w' cfg st zip).1)
       ∧ (deploy_cleanup ∈ commands (deploy_bjorn_zip script w w' cfg st zip).1 ↔
          deploy_run ∈ commands (deploy_bjorn_zip script w w' cfg st zip).1 ∧ ran)
       ∧ sftp_balanced 0 (deploy_bjorn_zip script w w' cfg st zip).1 = true
       ∧ commands (deploy_bjorn_zip script w w' cfg st zip).1
           `prefix_of` [deploy_chmod; deploy_run; deploy_cleanup].
Proof.
  intros Hok Hran.
  destruct deploy_lines_distinct as (D1 & D2 & D3).
  session_unfold. fold (stdin_of cfg).
  destruct (_client st) eqn:Hc; simpl.
  2:{ exists false. subst. split_and!; try done; [refute|error_found| |].
      - rewrite !elem_of_nil. by split; [|intros [? _]].
      - by apply prefix_nil. }
  repeat deploy_step w w' cfg zip script.
  all: eexists; split_and!; [reflexivity|..]; try done.
  all: try (by eexists).
  all: try error_found.
  all: try member_iff.
  all: subst ok; try refute.
  all: apply Z.eqb_eq in Heqb; subst.
  all: split; [intros _; split_and!; by eauto|done].
Qed.


(** [deploy_bjorn_zip] raises nothing.  It returns [True] exactly when the
    worker has a client, the archive is transferred in a first SFTP session,
    the deployment script is written in a second one, both sessions close
    without exception, [chmod] and the final [rm -f] return, and the script,
    run under [sudo], ends with the exit status 0; whenever it returns
    [False] it has logged an error. *)
Theorem deploy_outcome (script : string) (w w' : world) (cfg : SSH.SSHConfig)
    (st : session) (local_zip_path : string) :
  ∃ b, (deploy_bjorn_zip script w w' cfg st local_zip_path).2 = Ok b
       ∧ (b = true ↔
          _client st = true
          ∧ open_sftp w = Ok tt
          ∧ put w local_zip_path "/home/bjorn/Bjorn.zip" = Ok tt
          ∧ close_sftp w = Ok tt
          ∧ open_sftp w' = Ok tt
          ∧ write_file w' "/home/bjorn/deploy_tmp.sh" script = Ok tt
          ∧ close_sftp w' = Ok tt
          ∧ (∃ answer, exec w' "chmod +x /home/bjorn/deploy_tmp.sh" None = Ok answer)
          ∧ (∃ out err,
               exec w' "sudo -S bash /home/bjorn/deploy_tmp.sh" (stdin_of cfg)
               = Ok (0%Z, out, err))
          ∧ (∃ answer, exec w' "rm -f /home/bjorn/deploy_tmp.sh" None = Ok answer))
       ∧ (b = false →
          error_logged (deploy_bjorn_zip script w w' cfg st local_zip_path).1).
Proof.
  destruct (deploy_cases script w w' cfg st local_zip_path _ _ eq_refl eq_refl)
    as (b & H1 & H2 & H3 & _).
  exists b. split_and!; try done.
Qed.

(** [deploy_bjorn_zip] sends at most three commands, in this order: the
    [chmod] of the script it wrote, its run under [sudo], its removal.  The
    removal is sent exactly when the run was sent and returned, whatever its
    exit status; when the run raises, the script is left on the device. *)
Theorem deploy_cleans_up (script : string) (w w' : world) (cfg : SSH.SSHConfig)
    (st : session) (local_zip_path : string) :
  commands (deploy_bjorn_zip script w w' cfg st local_zip_path).1
    `prefix_of` ["chmod +x /home/bjorn/deploy_tmp.sh";
                 "sudo -S bash /home/bjorn/deploy_tmp.sh";
                 "rm -f /home/bjorn/deploy_tmp.sh"]
  ∧ ("rm -f /home/bjorn/deploy_tmp.sh"
       ∈ commands (deploy_bjorn_zip script w w' cfg st local_zip_path).1 ↔
     "sudo -S bash /home/bjorn/deploy_tmp.sh"
       ∈ commands (deploy_bjorn_zip script w w' cfg st local_zip_path).1
     ∧ ∃ answer,
         exec w' "sudo -S bash /home/bjorn/deploy_tmp.sh" (stdin_of cfg) = Ok answer).
Proof.
  destruct (deploy_cases script w w' cfg st local_zip_path _ _ eq_refl eq_refl)
    as (b & _ & _ & _ & H4 & _ & H6).
  split; [exact H6|exact H4].
Qed.

(** *** SFTP sessions *)

Lemma bind_calls {A B} (m : M A) (f : A → M B) :
  (m ≫= f).1 = m.1 ++ match m.2 with Ok a => (f a).1 | Raise _ _ => [] end.
Proof.
  destruct m as [calls [a|cls msg]]; unfold mbind, M_bind; simpl.
  - by destruct (f a).
  - by rewrite app_nil_r.
Qed.

Lemma bind_result {A B} (m : M A) (f : A → M B) :
  (m ≫= f).2 = match m.2 with Ok a => (f a).2 | Raise cls msg => Raise cls msg end.
Proof.
  destruct m as [calls [a|cls msg]]; unfold mbind, M_bind; simpl; [|done].
  by destruct (f a).
Qed.

Lemma sftp_balanced_skip (calls rest : list call) (depth : nat) :
  no_sftp calls → sftp_balanced depth (calls ++ rest) = sftp_balanced depth rest.
Proof.
  induction 1 as [|c calls [H1 H2] _ IH]; [done|].
  destruct c as [| | [] | | | | | |]; try done.
Qed.

Lemma upload_fragments_no_sftp w local_lib names :
  no_sftp (upload_fragments w local_lib names).1.
Proof.
  induction names as [|fname rest IH]; [by constructor|].
  cbn [upload_fragments]. rewrite bind_calls.
  apply Forall_app. split.
  - destruct (PyStr.endswith fname ".sh"); [|by constructor].
    unfold log, ask. unfold mbind, M_bind. simpl.
    by repeat constructor.
  - destruct (_ : M unit).2; [done|by constructor].
Qed.

Lemma install_scripts_balanced w st assets_dir :
  sftp_balanced 0 (upload_install_scripts w st assets_dir).1 = true.
Proof.
  unfold upload_install_scripts.
  set (local_lib := path_join w assets_dir "lib").
  pose proof (upload_fragments_no_sftp w local_lib) as Hf.
  session_unfold.
  destruct (_client st); [|done]. simpl.
  destruct (open_sftp w) as [[]|? ?]; [|done]. simpl.
  destruct (put w _ _) as [[]|? ?]; simpl.
  2:{ by destruct (close_sftp w) as [[]|? ?]. }
  destruct (mkdir w remote_lib) as [[]|[] ?]; simpl.
  all: destruct (listdir w local_lib) as [names|? ?]; simpl.
  all: try (by destruct (close_sftp w) as [[]|? ?]).
  all: specialize (Hf (sorted names)).
  all: destruct (upload_fragments w local_lib (sorted names)) as [fcalls [[]|? ?]].
  all: simpl in *.
  all: destruct (close_sftp w) as [[]|? ?]; simpl.
  all: rewrite <-?app_assoc; by rewrite sftp_balanced_skip.
Qed.


(** No method leaves an SFTP session open: in [upload_file], in
    [deploy_bjorn_zip] and in [upload_install_scripts], every session that
    [open_sftp] gave is closed before the method ends, also when a transfer
    or a later step raises, and no session is closed that was not opened. *)
Theorem sftp_sessions_closed (script : string) (w w' : world) (cfg : SSH.SSHConfig)
    (st : session) (local_path remote_path assets_dir : string) :
  sftp_balanced 0 (upload_file w st local_path remote_path).1 = true
  ∧ sftp_balanced 0 (deploy_bjorn_zip script w w' cfg st local_path).1 = true
  ∧ sftp_balanced 0 (upload_install_scripts w st assets_dir).1 = true.
Proof.
  split_and!.
  - session_unfold.
    destruct (_client st); [|done]. simpl.
    destruct (open_sftp w) as [[]|? ?]; [|done]. simpl.
    destruct (put w _ _) as [[]|? ?]; simpl.
    all: by destruct (close_sftp w) as [[]|? ?].
  - by destruct (deploy_cases script w w' cfg st local_path _ _ eq_refl eq_refl)
      as (b & _ & _ & _ & _ & H5 & _).
  - apply install_scripts_balanced.
Qed.

(** *** The files of the installer *)

Lemma compare_refl (a : string) : String.compare a a = Eq.
Proof.
  induction a as [|c a IH]; [done|]. simpl.
  unfold Ascii.compare. by rewrite N.compare_refl.
Qed.

Lemma name_le_trans : Transitive name_le.
Proof.
  unfold name_le, String.leb. intros a.
  induction a as [|c1 a IH]; intros [|c2 b] [|c3 c]; simpl; try done.
  unfold Ascii.compare.
  destruct (N.compare_spec (N_of_ascii c1) (N_of_ascii c2)) as [E1|L1|G1];
    destruct (N.compare_spec (N_of_ascii c2) (N_of_ascii c3)) as [E2|L2|G2];
    try done.
  - rewrite E1, E2, N.compare_refl. apply IH.
  - intros _ _. by rewrite E1, (proj2 (N.compare_lt_iff _ _) L2).
  - intros _ _. by rewrite <-E2, (proj2 (N.compare_lt_iff _ _) L1).
  - intros _ _. by rewrite (proj2 (N.compare_lt_iff _ _) (N.lt_trans _ _ _ L1 L2)).
Qed.

Lemma name_le_total : Total name_le.
Proof.
  intros a b. unfold name_le.
  destruct (String.leb_total a b) as [H|H]; [left|right]; by rewrite H.
Qed.

Lemma sorted_spec (names : list string) :
  sorted names ≡ₚ names ∧ StronglySorted name_le (sorted names).
Proof.
  split; [apply merge_sort_Permutation|].
  apply StronglySorted_merge_sort; [apply name_le_trans|apply name_le_total].
Qed.

Lemma StronglySorted_filter {A} (R : relation A) (P : A → Prop)
    `{∀ x, Decision (P x)} (l : list A) :
  StronglySorted R l → StronglySorted R (filter P l).
Proof.
  induction 1 as [|x l Hl IH Hx]; [constructor|].
  rewrite filter_cons. destruct (decide (P x)); [|done].
  constructor; [done|].
  rewrite Forall_forall in Hx |- *. intros y [_ Hy]%list_elem_of_filter. by apply Hx.
Qed.

Lemma puts_app (l1 l2 : list call) : puts (l1 ++ l2) = puts l1 ++ puts l2.
Proof. apply omap_app. Qed.

Lemma upload_fragments_ok w local_lib names :
  (∀ l r, put w l r = Ok tt) →
  (upload_fragments w local_lib names).2 = Ok tt
  ∧ puts (upload_fragments w local_lib names).1
    = fragment w local_lib <$> filter (fun n => PyStr.endswith n ".sh") names.
Proof.
  intros Hput. induction names as [|fname rest [IH1 IH2]]; [done|].
  cbn [upload_fragments]. rewrite bind_calls, bind_result, filter_cons.
  destruct (PyStr.endswith fname ".sh") eqn:E.
  - unfold log, ask, mbind, M_bind. rewrite Hput. simpl.
    rewrite IH1. split; [done|]. by rewrite IH2.
  - simpl. by rewrite IH1.
Qed.

(** With a client and transfers that succeed, [upload_install_scripts] returns
    the remote path of [install_bjorn.sh] after these transfers and no other:
    first [install_bjorn.sh] itself, then the files of the local [lib]
    directory whose name ends in [.sh], each once, in the order of their
    names, each to [/home/bjorn/lib/] under its own name.  An [IOError] of
    [mkdir] (the directory exists) changes nothing. *)
Theorem install_scripts_uploaded (w : world) (st : session) (assets_dir : string)
    (names : list string) :
  _client st = true →
  open_sftp w = Ok tt →
  (∀ l r, put w l r = Ok tt) →
  (mkdir w "/home/bjorn/lib" = Ok tt
   ∨ ∃ msg, mkdir w "/home/bjorn/lib" = Raise IOError msg) →
  listdir w (path_join w assets_dir "lib") = Ok names →
  close_sftp w = Ok tt →
  ∃ order,
    order ≡ₚ filter (fun n => PyStr.endswith n ".sh") names
    ∧ StronglySorted name_le order
    ∧ (upload_install_scripts w st assets_dir).2 = Ok "/home/bjorn/install_bjorn.sh"
    ∧ puts (upload_install_scripts w st assets_dir).1
      = (path_join w assets_dir "install_bjorn.sh", "/home/bjorn/install_bjorn.sh")
        :: ((fun n => (path_join w (path_join w assets_dir "lib") n,
                       "/home/bjorn/lib/" +:+ n)) <$> order).
Proof.
  intros Hc Ho Hput Hmk Hls Hcl.
  change (mkdir w "/home/bjorn/lib") with (mkdir w remote_lib) in Hmk.
  destruct (sorted_spec names) as [Hperm Hsort].
  exists (filter (fun n => PyStr.endswith n ".sh") (sorted names)).
  split_and!; [by rewrite Hperm|by apply StronglySorted_filter|..].
  all: destruct (upload_fragments_ok w (path_join w assets_dir "lib") (sorted names) Hput)
    as [F1 F2].
  all: session_unfold; rewrite Hc; simpl; rewrite Ho; simpl; rewrite Hput; simpl.
  all: destruct Hmk as [->|[msg ->]]; simpl; rewrite Hls; simpl.
  all: destruct (upload_fragments _ _ _) as [fcalls fres]; simpl in *; subst fres.
  all: rewrite Hcl; simpl; try done.
  all: rewrite <-?app_assoc, ?puts_app, F2; simpl.
  all: rewrite ?app_nil_r; done.
Qed.


Lemma install_scripts_uploaded_witness :
  ∃ order,
    order ≡ₚ filter (fun n => PyStr.endswith n ".sh") ["20_bjorn.sh"; "README.md"; "10_system.sh"]
    ∧ StronglySorted name_le order
    ∧ (upload_install_scripts
         {| exec := fun _ _ => Ok (0%Z, "", "");
            open_sftp := Ok tt; put := fun _ _ => Ok tt;
            write_file := fun _ _ => Ok tt;
            mkdir := fun _ => Raise IOError "Failure";
            close_sftp := Ok tt;
            listdir := fun _ => Ok ["20_bjorn.sh"; "README.md"; "10_system.sh"];
            path_join := fun a b => a +:+ "/" +:+ b |}
         {| _client := true; _connected := true |} "assets").2
      = Ok "/home/bjorn/install_bjorn.sh"
    ∧ puts (upload_install_scripts
         {| exec := fun _ _ => Ok (0%Z, "", "");
            open_sftp := Ok tt; put := fun _ _ => Ok tt;
            write_file := fun _ _ => Ok tt;
            mkdir := fun _ => Raise IOError "Failure";
            close_sftp := Ok tt;
            listdir := fun _ => Ok ["20_bjorn.sh"; "README.md"; "10_system.sh"];
            path_join := fun a b => a +:+ "/" +:+ b |}
         {| _client := true; _connected := true |} "assets").1
      = ("assets" +:+ "/" +:+ "install_bjorn.sh", "/home/bjorn/install_bjorn.sh")
        :: ((fun n => (("assets" +:+ "/" +:+ "lib") +:+ "/" +:+ n,
                       "/home/bjorn/lib/" +:+ n)) <$> order).
Proof.
  refine (install_scripts_uploaded
    {| exec := fun _ _ => Ok (0%Z, "", "");
       open_sftp := Ok tt; put := fun _ _ => Ok tt;
       write_file := fun _ _ => Ok tt;
       mkdir := fun _ => Raise IOError "Failure";
       close_sftp := Ok tt;
       listdir := fun _ => Ok ["20_bjorn.sh"; "README.md"; "10_system.sh"];
       path_join := fun a b => a +:+ "/" +:+ b |}
    {| _client := true; _connected := true |} "assets"
    ["20_bjorn.sh"; "README.md"; "10_system.sh"]
    eq_refl eq_refl (fun _ _ => eq_refl) _ eq_refl eq_refl).
  right. exists "Failure". reflexivity.
Defined.

(** *** A worker without a client *)

(** A worker that has no client (before [connect], or after [close]) sends
    nothing to the connection: the three methods that return a flag return
    [False], the two transfer methods raise the [RuntimeError] of
    [_ensure_connected], and a further [close] only logs. *)
Theorem no_client_no_request (script : string) (w w' : world) (cfg : SSH.SSHConfig)
    (st : session) (local_path remote_path assets_dir epd_version : string) :
  _client st = false →
  (requests (restart_bjorn_service w cfg st).1 = []
   ∧ (restart_bjorn_service w cfg st).2 = Ok false)
  ∧ (requests (change_epd_type w cfg st epd_version).1 = []
     ∧ (change_epd_type w cfg st epd_version).2 = Ok false)
  ∧ (requests (deploy_bjorn_zip script w w' cfg st local_path).1 = []
     ∧ (deploy_bjorn_zip script w w' cfg st local_path).2 = Ok false)
  ∧ upload_file w st local_path remote_path
    = ([], Raise RuntimeError "SSH client is not connected")
  ∧ upload_install_scripts w st assets_dir
    = ([], Raise RuntimeError "SSH client is not connected")
  ∧ requests (close st).2 = []
  ∧ _client (close st).1 = false.
Proof.
  intros Hc. unfold close. session_unfold. rewrite Hc. done.
Qed.

Lemma no_client_no_request_witness :
  requests
    (restart_bjorn_service
       {| exec := fun _ _ => Ok (0%Z, "", "");
          open_sftp := Ok tt; put := fun _ _ => Ok tt;
          write_file := fun _ _ => Ok tt; mkdir := fun _ => Ok tt;
          close_sftp := Ok tt; listdir := fun _ => Ok [];
          path_join := fun a b => a +:+ "/" +:+ b |}
       (SSH.Build_SSHConfig "10.0.0.5" 22 "bjorn" (Some "bjorn") None None)
       (close {| _client := true; _connected := true |}).1).1 = []
  ∧ (restart_bjorn_service
       {| exec := fun _ _ => Ok (0%Z, "", "");
          open_sftp := Ok tt; put := fun _ _ => Ok tt;
          write_file := fun _ _ => Ok tt; mkdir := fun _ => Ok tt;
          close_sftp := Ok tt; listdir := fun _ => Ok [];
          path_join := fun a b => a +:+ "/" +:+ b |}
       (SSH.Build_SSHConfig "10.0.0.5" 22 "bjorn" (Some "bjorn") None None)
       (close {| _client := true; _connected := true |}).1).2 = Ok false.
Proof.
  refine (proj1 (no_client_no_request ""
    {| exec := fun _ _ => Ok (0%Z, "", "");
       open_sftp := Ok tt; put := fun _ _ => Ok tt;
       write_file := fun _ _ => Ok tt; mkdir := fun _ => Ok tt;
       close_sftp := Ok tt; listdir := fun _ => Ok [];
       path_join := fun a b => a +:+ "/" +:+ b |}
    {| exec := fun _ _ => Ok (0%Z, "", "");
       open_sftp := Ok tt; put := fun _ _ => Ok tt;
       write_file := fun _ _ => Ok tt; mkdir := fun _ => Ok tt;
       close_sftp := Ok tt; listdir := fun _ => Ok [];
       path_join := fun a b => a +:+ "/" +:+ b |}
    (SSH.Build_SSHConfig "10.0.0.5" 22 "bjorn" (Some "bjorn") None None)
    (close {| _client := true; _connected := true |}).1 "" "" "" "" eq_refl)).
Defined.

End session_facts.

(** * Reset of the discovery *)

Section reset_facts.
Import Discovery.

(** [reset] forgets the aliases with the records: the first device sighted
    after it is announced as [Bjorn 1], whatever alias it had before, and its
    record starts with the one address of that sighting. *)
Theorem reset_restarts_numbering (s : state) (sg : sighting) (key : string) :
  sighting_key s sg = Some key →
  (_emit_device sg (reset s)).2
    = (if api_callback s
       then [DeviceFound ("Bjorn 1 (" +:+ _ip_tag (sg_ip sg) +:+ ")")
                         (sg_ip sg) (sg_probe sg)]
       else [])
  ∧ _registry (_emit_device sg (reset s)).1
    = {[ key := Rec "Bjorn 1" {[sg_ip sg]} (sg_now sg) ]}
  ∧ alias_mgr (_emit_device sg (reset s)).1 = {[ key := "Bjorn 1" ]}.
Proof.
  intros Hk.
  assert (sighting_key (reset s) sg = Some key) as Hk' by done.
  rewrite (emit_device_accepted _ _ _ Hk'). simpl.
  rewrite lookup_empty. unfold found_event, notify. simpl.
  rewrite (alias_for_new key ∅) by apply lookup_empty.
  assert (Alias._next_index ∅ = 1%Z) as -> by (by vm_compute).
  done.
Qed.

Lemma reset_restarts_numbering_witness :
  (_emit_device (Sighting "bjorn-b" "10.0.0.12" None None 400 true)
     (reset (run [OpSight (Sighting "bjorn-a" "10.0.0.11" None None 0 true);
                  OpSight (Sighting "bjorn-b" "10.0.0.12" None None 5 true)]
                 (init true true ∅)).1)).2
  = [DeviceFound "Bjorn 1 (LAN)" "10.0.0.12" true].
Proof.
  refine (proj1 (reset_restarts_numbering
    (run [OpSight (Sighting "bjorn-a" "10.0.0.11" None None 0 true);
          OpSight (Sighting "bjorn-b" "10.0.0.12" None None 5 true)]
         (init true true ∅)).1
    (Sighting "bjorn-b" "10.0.0.12" None None 400 true) "bjorn-b" _)).
  vm_compute. reflexivity.
Defined.

End reset_facts.
